(** * Korea child support calculator (2021 guideline table)

    A shallow embedding of [child_support_2021.py] and the properties of
    its calculation engine: bracket lookup, per-child aggregation, the
    child-count multiplier, the adjustment fold, the zero clamp, the
    income-proportional share and the final rounding.

    Python [int] is modelled as [Z]; Python [float] is modelled as Rocq's
    primitive binary64 [float], whose operations are the IEEE 754
    round-to-nearest-even ones that CPython uses, and whose behaviour is
    specified (module [FloatAxioms]) by the functions of [SpecFloat].
    Exceptions are modelled by a sum type with one constructor per
    [raise] site of the source (and per implicit failure of a numeric
    conversion). *)

From Stdlib Require Import ZArith List String Ascii Bool Lia Permutation.
From Stdlib Require Import Floats.
From Stdlib Require Uint63.
Import ListNotations.

#[local] Set Warnings "-inexact-float".
#[local] Open Scope string_scope.
#[local] Open Scope list_scope.
#[local] Open Scope Z_scope.

(** ** Exceptions and the error monad *)

(** The source raises [ValueError] with five different messages; the
    specification names the four caller errors.  The remaining
    constructors are the implicit failures of Python's numeric
    conversions and container accesses. *)
Inductive PyError : Type :=
| EmptyChildrenError                      (* "At least one child is required." *)
| NegativeIncomeError                     (* "Income cannot be negative." *)
| OutOfRangeError (age : Z)               (* "Child age out of supported range (0~18): ..." *)
| IncomeNotInBracketError (income : Z)    (* "Combined income not in any bracket: ..." *)
| InvalidAdjustmentError (ty : string)    (* "Unknown adjustment type: ..." *)
| FloatNaNToIntError                      (* math.floor(nan): ValueError *)
| FloatInfToIntError                      (* math.floor(inf): OverflowError *)
| IntTooLargeForFloatError                (* int too large to convert to float *)
| ZeroDivisionError
| KeyError
| IndexError.

Definition res (A : Type) : Type := (PyError + A)%type.

Definition ret {A : Type} (a : A) : res A := inr a.
Definition raise {A : Type} (e : PyError) : res A := inl e.
Definition bind {A B : Type} (c : res A) (k : A -> res B) : res B :=
  match c with
  | inl e => inl e
  | inr a => k a
  end.

Notation "x <- c ;; k" := (bind c (fun x => k))
  (at level 61, c at next level, right associativity).
Notation "' pat <- c ;; k" := (bind c (fun x => match x with pat => k end))
  (at level 61, pat pattern, c at next level, right associativity).

(** ** Python numbers *)

Module PyNum.

(** [float(z)] and the implicit conversion of an [int] operand in mixed
    arithmetic: the nearest double (ties to even), [OverflowError] when
    the rounded value is not finite. *)
Definition float_of_int (z : Z) : res float :=
  match binary_normalize prec emax z 0 false with
  | S754_infinity _ => raise IntTooLargeForFloatError
  | sf => ret (SF2Prim sf)
  end.

(** The integer [z] as an unrounded dyadic number. *)
Definition raw_of_int (z : Z) : spec_float :=
  match z with
  | Z0 => S754_zero false
  | Zpos p => S754_finite false p 0
  | Zneg p => S754_finite true p 0
  end.

(** [a / b] on two [int]s: the correctly rounded quotient of the two
    integers (one rounding, whatever their size). *)
Definition int_true_div (a b : Z) : res float :=
  if b =? 0 then raise ZeroDivisionError
  else
    match SFdiv prec emax (raw_of_int a) (raw_of_int b) with
    | S754_infinity _ => raise IntTooLargeForFloatError
    | sf => ret (SF2Prim sf)
    end.

(** [int(math.floor(x))]. A finite double is [(-1)^s * m * 2^e]; shifting
    left by a negative amount is an arithmetic right shift, which rounds
    toward minus infinity. *)
Definition floor_int (x : float) : res Z :=
  match Prim2SF x with
  | S754_zero _ => ret 0
  | S754_infinity _ => raise FloatInfToIntError
  | S754_nan => raise FloatNaNToIntError
  | S754_finite s m e => ret (Z.shiftl (cond_Zopp s (Zpos m)) e)
  end.

(** [int(x)] / [math.trunc(x)]: truncation toward zero. *)
Definition trunc_int (x : float) : res Z :=
  match Prim2SF x with
  | S754_zero _ => ret 0
  | S754_infinity _ => raise FloatInfToIntError
  | S754_nan => raise FloatNaNToIntError
  | S754_finite s m e => ret (cond_Zopp s (Z.shiftl (Zpos m) e))
  end.

(** [max(0, x)] keeps its first argument unless [x > 0].  Python returns
    the [int] 0 in that case; both later uses ([0 * share] and
    [0 + 0.5]) promote it to the double [+0.0], which is what is
    returned here. *)
Definition max_zero (x : float) : float :=
  if (0 <? x)%float then x else 0%float.

End PyNum.
Import PyNum.

(** ** Data (the 2021 guideline table) *)

Definition INCOME_BRACKETS_MW : list (Z * option Z) :=
  [ (0, Some 199);
    (200, Some 299);
    (300, Some 399);
    (400, Some 499);
    (500, Some 599);
    (600, Some 699);
    (700, Some 799);
    (800, Some 899);
    (900, Some 999);
    (1000, Some 1199);
    (1200, None) ].

Definition AGE_BRACKETS : list (Z * Z * string) :=
  [ (0, 2, "0~2세");
    (3, 5, "3~5세");
    (6, 8, "6~8세");
    (9, 11, "9~11세");
    (12, 14, "12~14세");
    (15, 18, "15~18세") ].

Record Entry : Type := mkEntry {
  entry_avg : Z;
  entry_low : Z;
  entry_high : option Z
}.

(** Indexed by age label, then by income bracket index. *)
Definition TABLE_2021 : list (string * list Entry) :=
  [ ("0~2세",
     [ mkEntry 621000 264000 (Some 686000);
       mkEntry 752000 687000 (Some 848000);
       mkEntry 945000 849000 (Some 1021000);
       mkEntry 1098000 1022000 (Some 1171000);
       mkEntry 1245000 1172000 (Some 1323000);
       mkEntry 1401000 1324000 (Some 1491000);
       mkEntry 1582000 1492000 (Some 1685000);
       mkEntry 1789000 1686000 (Some 1893000);
       mkEntry 1997000 1894000 (Some 2046000);
       mkEntry 2095000 2047000 (Some 2151000);
       mkEntry 2207000 2152000 None ]);
    ("3~5세",
     [ mkEntry 631000 268000 (Some 695000);
       mkEntry 759000 696000 (Some 854000);
       mkEntry 949000 855000 (Some 1031000);
       mkEntry 1113000 1032000 (Some 1189000);
       mkEntry 1266000 1190000 (Some 1344000);
       mkEntry 1422000 1345000 (Some 1510000);
       mkEntry 1598000 1511000 (Some 1702000);
       mkEntry 1807000 1703000 (Some 1912000);
       mkEntry 2017000 1913000 (Some 2066000);
       mkEntry 2116000 2067000 (Some 2180000);
       mkEntry 2245000 2181000 None ]);
    ("6~8세",
     [ mkEntry 648000 272000 (Some 707000);
       mkEntry 767000 708000 (Some 863000);
       mkEntry 959000 864000 (Some 1049000);
       mkEntry 1140000 1050000 (Some 1216000);
       mkEntry 1292000 1217000 (Some 1385000);
       mkEntry 1479000 1386000 (Some 1546000);
       mkEntry 1614000 1547000 (Some 1732000);
       mkEntry 1850000 1733000 (Some 1957000);
       mkEntry 2065000 1958000 (Some 2101000);
       mkEntry 2137000 2102000 (Some 2224000);
       mkEntry 2312000 2225000 None ]);
    ("9~11세",
     [ mkEntry 667000 281000 (Some 724000);
       mkEntry 782000 725000 (Some 885000);
       mkEntry 988000 886000 (Some 1075000);
       mkEntry 1163000 1076000 (Some 1240000);
       mkEntry 1318000 1241000 (Some 1406000);
       mkEntry 1494000 1407000 (Some 1562000);
       mkEntry 1630000 1563000 (Some 1758000);
       mkEntry 1887000 1759000 (Some 2012000);
       mkEntry 2137000 2013000 (Some 2158000);
       mkEntry 2180000 2159000 (Some 2292000);
       mkEntry 2405000 2293000 None ]);
    ("12~14세",
     [ mkEntry 679000 295000 (Some 734000);
       mkEntry 790000 735000 (Some 894000);
       mkEntry 998000 895000 (Some 1139000);
       mkEntry 1280000 1140000 (Some 1351000);
       mkEntry 1423000 1352000 (Some 1510000);
       mkEntry 1598000 1511000 (Some 1654000);
       mkEntry 1711000 1655000 (Some 1847000);
       mkEntry 1984000 1848000 (Some 2071000);
       mkEntry 2159000 2072000 (Some 2191000);
       mkEntry 2223000 2192000 (Some 2349000);
       mkEntry 2476000 2350000 None ]);
    ("15~18세",
     [ mkEntry 703000 319000 (Some 830000);
       mkEntry 957000 831000 (Some 1092000);
       mkEntry 1227000 1093000 (Some 1314000);
       mkEntry 1402000 1315000 (Some 1503000);
       mkEntry 1604000 1504000 (Some 1699000);
       mkEntry 1794000 1700000 (Some 1879000);
       mkEntry 1964000 1880000 (Some 2063000);
       mkEntry 2163000 2064000 (Some 2204000);
       mkEntry 2246000 2205000 (Some 2393000);
       mkEntry 2540000 2394000 (Some 2711000);
       mkEntry 2883000 2712000 None ]) ].

(** Child-count multiplier: baseline is 2 children, key 3 stands for
    three or more. *)
Definition CHILD_COUNT_MULTIPLIERS : list (nat * float) :=
  [ (1%nat, 1.065%float);
    (2%nat, 1.0%float);
    (3%nat, 0.783%float) ].

(** ** Models *)

(** The fields have the types that the dataclasses declare. *)
Record Adjustment : Type := mkAdjustment {
  name : string;
  type : string;       (* multiplier|add|subtract *)
  value : float;
  is_percent : bool;
  notes : string
}.

Record Child : Type := mkChild { age : Z }.

Record CalculationInputs : Type := mkInputs {
  custodial_parent_income_krw : Z;
  non_custodial_parent_income_krw : Z;
  children : list Child;
  custodial_imputed_income_krw : option Z;
  non_custodial_imputed_income_krw : option Z;
  adjustments : option (list Adjustment)
}.

Record ChildCell : Type := mkChildCell {
  age_label : string;
  income_bracket_mw : Z * option Z;
  avg_krw : Z;
  low_krw : Z;
  high_krw : option Z
}.

(** The extra key that the source adds to [asdict(a)]. *)
Inductive Effect : Type :=
| effective_multiplier (f : float)
| effective_add_krw (f : float)
| effective_subtract_krw (f : float).

Record AppliedAdjustment : Type := mkApplied {
  applied_fields : Adjustment;
  applied_effect : Effect
}.

Record CalculationBreakdown : Type := mkBreakdown {
  combined_income_krw : Z;
  combined_income_mw : Z;
  income_bracket_index : nat;
  standard_children_cells : list ChildCell;
  standard_total_krw : Z;
  child_count_multiplier : float;
  adjusted_total_krw : Z;
  non_custodial_share : float;
  non_custodial_payment_krw : Z;
  applied_adjustments : list AppliedAdjustment
}.

(** ** Container accesses *)

(** [d[key]] on a dict with string keys. *)
Fixpoint dict_get {V : Type} (d : list (string * V)) (key : string) : res V :=
  match d with
  | [] => raise KeyError
  | (k, v) :: rest => if (k =? key)%string then ret v else dict_get rest key
  end.

(** [d[key]] on a dict with integer keys. *)
Fixpoint dict_get_nat {V : Type} (d : list (nat * V)) (key : nat) : res V :=
  match d with
  | [] => raise KeyError
  | (k, v) :: rest => if (k =? key)%nat then ret v else dict_get_nat rest key
  end.

(** [l[idx]] for a non-negative index. *)
Definition list_get {V : Type} (l : list V) (idx : nat) : res V :=
  match nth_error l idx with
  | Some v => ret v
  | None => raise IndexError
  end.

(** ** Core functions *)

Module Guideline2021.

(** The [for] loop of [age_label_for] over the remaining brackets. *)
Fixpoint age_label_loop (brackets : list (Z * Z * string)) (age : Z) : res string :=
  match brackets with
  | [] => raise (OutOfRangeError age)
  | (a_min, a_max, label) :: rest =>
      if (a_min <=? age) && (age <=? a_max) then ret label
      else age_label_loop rest age
  end.

Definition age_label_for (age : Z) : res string :=
  age_label_loop AGE_BRACKETS age.

(** The [for] loop of [income_bracket_index]; [idx] is the index that
    [enumerate] gives to the head of [brackets]. *)
Fixpoint income_bracket_loop (brackets : list (Z * option Z)) (idx : nat) (mw : Z)
  : option nat :=
  match brackets with
  | [] => None
  | (lo, None) :: rest =>
      if mw >=? lo then Some idx
      else income_bracket_loop rest (S idx) mw
  | (lo, Some hi) :: rest =>
      if (lo <=? mw) && (mw <=? hi) then Some idx
      else income_bracket_loop rest (S idx) mw
  end.

Definition income_bracket_index (combined_income_krw : Z) : res nat :=
  let mw := combined_income_krw / 10000 in
  match income_bracket_loop INCOME_BRACKETS_MW 0 mw with
  | Some idx => ret idx
  | None => raise (IncomeNotInBracketError combined_income_krw)
  end.

Definition cell (age : Z) (combined_income_krw : Z) : res ChildCell :=
  label <- age_label_for age ;;
  idx <- income_bracket_index combined_income_krw ;;
  row <- dict_get TABLE_2021 label ;;
  entry <- list_get row idx ;;
  bracket <- list_get INCOME_BRACKETS_MW idx ;;
  ret {| age_label := label;
         income_bracket_mw := bracket;
         avg_krw := entry_avg entry;
         low_krw := entry_low entry;
         high_krw := entry_high entry |}.

Definition minimum_support_half (age : Z) : res Z :=
  label <- age_label_for age ;;
  row <- dict_get TABLE_2021 label ;;
  entry <- list_get row 0 ;;
  ret (entry_low entry / 2).

End Guideline2021.

Definition _safe_int (x : float) : res Z :=
  floor_int (x + 0.5)%float.

(** Income imputation: the imputed value replaces a stated income that is
    less than or equal to zero, when one was supplied. *)
Definition impute (stated : Z) (imputed : option Z) : Z :=
  match imputed with
  | Some v => if stated <=? 0 then v else stated
  | None => stated
  end.

(** The per-child loop: one table cell per child, averages summed. *)
Fixpoint standard_support (kids : list Child) (combined : Z)
    (cells : list ChildCell) (standard_total : Z) : res (list ChildCell * Z) :=
  match kids with
  | [] => ret (cells, standard_total)
  | child :: rest =>
      c <- Guideline2021.cell (age child) combined ;;
      standard_support rest combined (cells ++ [c]) (standard_total + avg_krw c)
  end.

(** The [if n == 1 ... elif n == 2 ... else ...] selection. *)
Definition select_multiplier (n : nat) : res float :=
  match n with
  | 1%nat => dict_get_nat CHILD_COUNT_MULTIPLIERS 1
  | 2%nat => dict_get_nat CHILD_COUNT_MULTIPLIERS 2
  | _ => dict_get_nat CHILD_COUNT_MULTIPLIERS 3
  end.

(** One iteration of the adjustment loop: the new running total and the
    record appended to [applied]. *)
Definition apply_adjustment (adjusted_total : float) (a : Adjustment)
  : res (float * AppliedAdjustment) :=
  if (type a =? "multiplier")%string then
    if is_percent a then
      ret ((adjusted_total * (1.0 + value a))%float,
           mkApplied a (effective_multiplier (1.0 + value a)%float))
    else
      ret ((adjusted_total * value a)%float,
           mkApplied a (effective_multiplier (value a)))
  else if (type a =? "add")%string then
    ret ((adjusted_total + value a)%float, mkApplied a (effective_add_krw (value a)))
  else if (type a =? "subtract")%string then
    ret ((adjusted_total - value a)%float, mkApplied a (effective_subtract_krw (value a)))
  else raise (InvalidAdjustmentError (type a)).

(** The adjustment loop, from the head of [adj] on. *)
Fixpoint apply_adjustments (adj : list Adjustment) (adjusted_total : float)
    (applied : list AppliedAdjustment) : res (float * list AppliedAdjustment) :=
  match adj with
  | [] => ret (adjusted_total, applied)
  | a :: rest =>
      '(total', record) <- apply_adjustment adjusted_total a ;;
      apply_adjustments rest total' (applied ++ [record])
  end.

(** Allocation by income proportion. *)
Definition share_of (noncust_income combined : Z) : res float :=
  if combined =? 0 then ret 0%float
  else int_true_div noncust_income combined.

(** The local variables [adj], [cust_income], [noncust_income] and
    [combined] of [calculate_child_support]. *)
Definition adj_of (inputs : CalculationInputs) : list Adjustment :=
  match adjustments inputs with
  | Some l => l
  | None => []
  end.

Definition cust_income_of (inputs : CalculationInputs) : Z :=
  impute (custodial_parent_income_krw inputs) (custodial_imputed_income_krw inputs).

Definition noncust_income_of (inputs : CalculationInputs) : Z :=
  impute (non_custodial_parent_income_krw inputs)
         (non_custodial_imputed_income_krw inputs).

Definition combined_of (inputs : CalculationInputs) : Z :=
  cust_income_of inputs + noncust_income_of inputs.

Definition calculate_child_support (inputs : CalculationInputs)
  : res CalculationBreakdown :=
  match children inputs with
  | [] => raise EmptyChildrenError
  | _ :: _ =>
    let adj := adj_of inputs in
    let cust_income := cust_income_of inputs in
    let noncust_income := noncust_income_of inputs in
    if (cust_income <? 0) || (noncust_income <? 0) then raise NegativeIncomeError
    else
      let combined := combined_of inputs in
      let combined_mw := combined / 10000 in
      bracket_idx <- Guideline2021.income_bracket_index combined ;;
      '(cells, standard_total) <- standard_support (children inputs) combined [] 0 ;;
      let n := List.length (children inputs) in
      m <- select_multiplier n ;;
      standard_total_f <- float_of_int standard_total ;;
      let adjusted_total := (standard_total_f * m)%float in
      '(adjusted_total, applied) <- apply_adjustments adj adjusted_total [] ;;
      let adjusted_total := max_zero adjusted_total in
      noncust_share <- share_of noncust_income combined ;;
      payment <- _safe_int (adjusted_total * noncust_share)%float ;;
      adjusted_krw <- _safe_int adjusted_total ;;
      ret {| combined_income_krw := combined;
             combined_income_mw := combined_mw;
             income_bracket_index := bracket_idx;
             standard_children_cells := cells;
             standard_total_krw := standard_total;
             child_count_multiplier := m;
             adjusted_total_krw := adjusted_krw;
             non_custodial_share := noncust_share;
             non_custodial_payment_krw := payment;
             applied_adjustments := applied |}
  end.

(** The value of the variable [adjusted_total] when the adjustment loop
    starts: [standard_total * m]. *)
Definition seed_total (inputs : CalculationInputs) : res float :=
  '(_, standard_total) <-
     standard_support (children inputs) (combined_of inputs) [] 0 ;;
  m <- select_multiplier (List.length (children inputs)) ;;
  standard_total_f <- float_of_int standard_total ;;
  ret (standard_total_f * m)%float.

(** The value of the variable [adjusted_total] after the clamp
    [max(0, adjusted_total)]: the seed folded through the adjustments,
    before any rounding to an integer. *)
Definition unrounded_adjusted_total (inputs : CalculationInputs) : res float :=
  seed <- seed_total inputs ;;
  '(adjusted_total, _) <- apply_adjustments (adj_of inputs) seed [] ;;
  ret (max_zero adjusted_total).

(** ** Inputs and predicates used in the statements *)

(** End-to-end scenario A. *)
Definition scenario_A : CalculationInputs :=
  {| custodial_parent_income_krw := 2000000;
     non_custodial_parent_income_krw := 3000000;
     children := [ mkChild 8 ];
     custodial_imputed_income_krw := None;
     non_custodial_imputed_income_krw := None;
     adjustments := None |}.

(** Scenario A with a subtraction larger than the running total. *)
Definition scenario_oversubtract : CalculationInputs :=
  {| custodial_parent_income_krw := 2000000;
     non_custodial_parent_income_krw := 3000000;
     children := [ mkChild 8 ];
     custodial_imputed_income_krw := None;
     non_custodial_imputed_income_krw := None;
     adjustments := Some [ mkAdjustment "relief" "subtract" 5000000 false "" ] |}.

(** Both incomes zero, nothing imputed, and an addition that makes the
    adjusted total positive. *)
Definition scenario_zero_income : CalculationInputs :=
  {| custodial_parent_income_krw := 0;
     non_custodial_parent_income_krw := 0;
     children := [ mkChild 8 ];
     custodial_imputed_income_krw := None;
     non_custodial_imputed_income_krw := None;
     adjustments := Some [ mkAdjustment "medical" "add" 50000 false "" ] |}.

(** Two children, equal incomes and an adjusted total of 1,252,001: the
    raw payment is exactly 626,000.5. *)
Definition scenario_tie : CalculationInputs :=
  {| custodial_parent_income_krw := 500000;
     non_custodial_parent_income_krw := 500000;
     children := [ mkChild 0; mkChild 3 ];
     custodial_imputed_income_krw := None;
     non_custodial_imputed_income_krw := None;
     adjustments := Some [ mkAdjustment "fee" "add" 1 false "" ] |}.

(** The same request with an addition of 0.9: the unrounded adjusted
    total is 1,252,000.9. *)
Definition scenario_fraction : CalculationInputs :=
  {| custodial_parent_income_krw := 500000;
     non_custodial_parent_income_krw := 500000;
     children := [ mkChild 0; mkChild 3 ];
     custodial_imputed_income_krw := None;
     non_custodial_imputed_income_krw := None;
     adjustments := Some [ mkAdjustment "fee" "add" 0.9 false "" ] |}.



(** The two orders of the specification's example. *)
Definition add_then_percent : list Adjustment :=
  [ mkAdjustment "a" "add" 10000 false "";
    mkAdjustment "b" "multiplier" 0.1 true "" ].

Definition percent_then_add : list Adjustment :=
  [ mkAdjustment "b" "multiplier" 0.1 true "";
    mkAdjustment "a" "add" 10000 false "" ].

(** End-to-end scenario B: two children aged 2 and 15. *)
Definition scenario_B : CalculationInputs :=
  {| custodial_parent_income_krw := 2000000;
     non_custodial_parent_income_krw := 3000000;
     children := [ mkChild 2; mkChild 15 ];
     custodial_imputed_income_krw := None;
     non_custodial_imputed_income_krw := None;
     adjustments := None |}.

(** End-to-end scenario C: no child. *)
Definition scenario_C : CalculationInputs :=
  {| custodial_parent_income_krw := 2000000;
     non_custodial_parent_income_krw := 3000000;
     children := [];
     custodial_imputed_income_krw := None;
     non_custodial_imputed_income_krw := None;
     adjustments := None |}.

(** End-to-end scenario D: a negative income and nothing imputed. *)
Definition scenario_D : CalculationInputs :=
  {| custodial_parent_income_krw := 2000000;
     non_custodial_parent_income_krw := -1;
     children := [ mkChild 8 ];
     custodial_imputed_income_krw := None;
     non_custodial_imputed_income_krw := None;
     adjustments := None |}.

(** The sum of the averages of a list of cells. *)
Definition sum_avg (cells : list ChildCell) : Z :=
  fold_right (fun c acc => avg_krw c + acc) 0 cells.

(** A bracket contains [mw]; the open-ended bracket has no upper bound. *)
Definition in_income_bracket (b : Z * option Z) (mw : Z) : Prop :=
  fst b <= mw /\ match snd b with Some hi => mw <= hi | None => True end.

Definition in_age_bracket (b : Z * Z * string) (a : Z) : Prop :=
  fst (fst b) <= a <= snd (fst b).

(** The adjustment types that the loop recognizes. *)
Definition recognized (a : Adjustment) : bool :=
  (type a =? "multiplier")%string || (type a =? "add")%string
  || (type a =? "subtract")%string.

(** One step of the adjustment engine as the specification words it:
    additive kinds add the value, subtractive kinds subtract it, factor
    kinds multiply by the value and percentage kinds by (1 + value). *)
Definition adjustment_step_spec (total : float) (a : Adjustment) : float :=
  if (type a =? "add")%string then (total + value a)%float
  else if (type a =? "subtract")%string then (total - value a)%float
  else if is_percent a then (total * (1 + value a))%float
  else (total * value a)%float.

(** Round-half-up as the specification words it: add 0.5, then truncate
    toward zero. *)
Definition round_half_up_spec (x : float) : res Z :=
  trunc_int (x + 0.5)%float.

(** The double [y] is exactly [X + 1/2], with [X] a non-negative integer:
    its mantissa [m] and exponent [e < 0] satisfy [m * 2^e = (2X + 1) / 2]. *)
Definition is_half_integer (y : float) (X : Z) : Prop :=
  exists m e,
    Prim2SF y = S754_finite false m e /\ e < 0 /\
    2 * Zpos m = (2 * X + 1) * 2 ^ (- e).

(** The sign bit of a double is clear (NaN has none). *)
Definition sign_clear (x : spec_float) : Prop :=
  match x with
  | S754_zero s | S754_infinity s | S754_finite s _ _ => s = false
  | S754_nan => True
  end.

(** ** Definitions for the further properties *)

(** Each child of [kids] resolves to the cell at the same position. *)
Definition cells_of (combined : Z) (kids : list Child) (cells : list ChildCell)
  : Prop :=
  Forall2 (fun k cl => Guideline2021.cell (age k) combined = inr cl) kids cells.

(** The request with its children replaced. *)
Definition with_children (inputs : CalculationInputs) (kids : list Child)
  : CalculationInputs :=
  {| custodial_parent_income_krw := custodial_parent_income_krw inputs;
     non_custodial_parent_income_krw := non_custodial_parent_income_krw inputs;
     children := kids;
     custodial_imputed_income_krw := custodial_imputed_income_krw inputs;
     non_custodial_imputed_income_krw := non_custodial_imputed_income_krw inputs;
     adjustments := adjustments inputs |}.

(** The request that states the effective incomes and imputes nothing. *)
Definition with_effective_incomes (inputs : CalculationInputs)
  : CalculationInputs :=
  {| custodial_parent_income_krw := cust_income_of inputs;
     non_custodial_parent_income_krw := noncust_income_of inputs;
     children := children inputs;
     custodial_imputed_income_krw := None;
     non_custodial_imputed_income_krw := None;
     adjustments := adjustments inputs |}.

(** The request with its adjustment list replaced. *)
Definition with_adjustments (inputs : CalculationInputs) (adj : list Adjustment)
  : CalculationInputs :=
  {| custodial_parent_income_krw := custodial_parent_income_krw inputs;
     non_custodial_parent_income_krw := non_custodial_parent_income_krw inputs;
     children := children inputs;
     custodial_imputed_income_krw := custodial_imputed_income_krw inputs;
     non_custodial_imputed_income_krw := non_custodial_imputed_income_krw inputs;
     adjustments := Some adj |}.

(** What each failure of the calculation says about the request. *)
Definition error_cause (inputs : CalculationInputs) (e : PyError) : Prop :=
  match e with
  | EmptyChildrenError => children inputs = []
  | NegativeIncomeError =>
      children inputs <> [] /\
      (cust_income_of inputs < 0 \/ noncust_income_of inputs < 0)
  | OutOfRangeError a =>
      exists before k after,
        children inputs = before ++ k :: after /\
        Forall (fun k' => 0 <= age k' <= 18) before /\
        age k = a /\ (a < 0 \/ 18 < a)
  | InvalidAdjustmentError ty =>
      exists a, In a (adj_of inputs) /\ recognized a = false /\ type a = ty
  | FloatNaNToIntError | FloatInfToIntError | IntTooLargeForFloatError => True
  | IncomeNotInBracketError _ | ZeroDivisionError | KeyError | IndexError => False
  end.

(** The effect that the loop records for an adjustment of a recognized
    type. *)
Definition effect_of (a : Adjustment) : Effect :=
  if (type a =? "multiplier")%string then
    if is_percent a then effective_multiplier (1.0 + value a)%float
    else effective_multiplier (value a)
  else if (type a =? "add")%string then effective_add_krw (value a)
  else effective_subtract_krw (value a).

(** Applying a recorded effect to a running total. *)
Definition replay_effect (total : float) (eff : Effect) : float :=
  match eff with
  | effective_multiplier f => (total * f)%float
  | effective_add_krw f => (total + f)%float
  | effective_subtract_krw f => (total - f)%float
  end.

(** An adjustment that multiplies by 1.0, as a factor or as a percentage of
    zero. *)
Definition neutral (a : Adjustment) : Prop :=
  type a = "multiplier" /\
  ((is_percent a = false /\ value a = 1%float) \/
   (is_percent a = true /\ value a = 0%float)).

(** The double [y] is exactly the positive integer [z] (below 2^52). *)
Definition is_integer_double (y : float) (z : Z) : Prop :=
  exists m e,
    Prim2SF y = S754_finite false m e /\ e < 0 /\ Zpos m = z * 2 ^ (- e).

(** One earner: the custodial parent has no income. *)
Definition scenario_sole_earner : CalculationInputs :=
  {| custodial_parent_income_krw := 0;
     non_custodial_parent_income_krw := 3000000;
     children := [ mkChild 8 ];
     custodial_imputed_income_krw := None;
     non_custodial_imputed_income_krw := None;
     adjustments := Some [ mkAdjustment "medical" "add" 0.25 false "" ] |}.

(** An older child and a higher combined income than in scenario A. *)
Definition scenario_older_richer : CalculationInputs :=
  {| custodial_parent_income_krw := 3000000;
     non_custodial_parent_income_krw := 3000000;
     children := [ mkChild 15 ];
     custodial_imputed_income_krw := None;
     non_custodial_imputed_income_krw := None;
     adjustments := None |}.

(** The second child is the first one outside the supported ages. *)
Definition scenario_out_of_range : CalculationInputs :=
  {| custodial_parent_income_krw := 2000000;
     non_custodial_parent_income_krw := 3000000;
     children := [ mkChild 8; mkChild 19; mkChild (-1) ];
     custodial_imputed_income_krw := None;
     non_custodial_imputed_income_krw := None;
     adjustments := Some [ mkAdjustment "region" "percent" 0.05 false "" ] |}.

(** Stated incomes of zero and below, with the incomes of scenario A
    imputed. *)
Definition scenario_imputed : CalculationInputs :=
  {| custodial_parent_income_krw := -5;
     non_custodial_parent_income_krw := 0;
     children := [ mkChild 8 ];
     custodial_imputed_income_krw := Some 2000000;
     non_custodial_imputed_income_krw := Some 3000000;
     adjustments := None |}.

(** A factor of 1.0. *)
Definition unit_factor : Adjustment :=
  mkAdjustment "none" "multiplier" 1 false "".

(** ** Command line *)

(** The failures of the command-line layer: the two [ValueError]s of
    [_parse_children_ages] and the failures of the calculation. *)
Inductive CliError : Type :=
| InvalidLiteralError (part : string)   (* int(part): invalid literal *)
| ChildrenAgesFormatError               (* "children_ages must be like: 8 or 8,15" *)
| CoreError (e : PyError).

(** [s.split(",")]: the parts between the commas; a string without comma
    is its own single part, and the empty string gives one empty part.
    Strings are sequences of bytes (UTF-8); the byte of the comma occurs
    in no multi-byte character. *)
Fixpoint split_comma (s : string) : list string :=
  match s with
  | EmptyString => [EmptyString]
  | String c rest =>
      if (c =? ",")%char then EmptyString :: split_comma rest
      else
        match split_comma rest with
        | part :: parts => String c part :: parts
        | [] => [String c EmptyString]
        end
  end.

Section CommandLine.

(** The two built-ins that the parser calls on each part: [str.strip()]
    and [int(str)] ([None] when it raises [ValueError]). *)
Variable str_strip : string -> string.
Variable int_of_str : string -> option Z.

(** The [for] loop of [_parse_children_ages] over the remaining parts. *)
Fixpoint parse_ages_loop (parts : list string) (ages : list Child)
  : CliError + list Child :=
  match parts with
  | [] => inr ages
  | part :: rest =>
      let part := str_strip part in
      if (part =? "")%string then parse_ages_loop rest ages
      else
        match int_of_str part with
        | None => inl (InvalidLiteralError part)
        | Some n => parse_ages_loop rest (ages ++ [mkChild n])
        end
  end.

Definition _parse_children_ages (s : string) : CliError + list Child :=
  match parse_ages_loop (split_comma s) [] with
  | inl e => inl e
  | inr [] => inl ChildrenAgesFormatError
  | inr (k :: ages) => inr (k :: ages)
  end.

(** The part of [main] between the argument parser and the printing:
    build the inputs from the parsed arguments (nothing imputed) and
    calculate.  [adjustments] is the list already decoded from JSON. *)
Definition main_calculation (cust_income noncust_income : Z)
    (children_ages : string) (adjustments : option (list Adjustment))
  : CliError + CalculationBreakdown :=
  match _parse_children_ages children_ages with
  | inl e => inl e
  | inr kids =>
      match calculate_child_support
              {| custodial_parent_income_krw := cust_income;
                 non_custodial_parent_income_krw := noncust_income;
                 children := kids;
                 custodial_imputed_income_krw := None;
                 non_custodial_imputed_income_krw := None;
                 adjustments := adjustments |} with
      | inl e => inl (CoreError e)
      | inr out => inr out
      end
  end.

(** The stripped parts that are not empty, in order. *)
Definition nonblank_parts (s : string) : list string :=
  filter (fun part => negb (part =? "")%string) (map str_strip (split_comma s)).

End CommandLine.

(** Instances of the two built-ins on plain ASCII input, for examples:
    spaces stripped at both ends, unsigned decimal literals. *)
Fixpoint lstrip_spaces (s : string) : string :=
  match s with
  | String c rest => if (c =? " ")%char then lstrip_spaces rest else s
  | EmptyString => EmptyString
  end.

Fixpoint rstrip_spaces (s : string) : string :=
  match s with
  | String c rest =>
      let rest' := rstrip_spaces rest in
      if (c =? " ")%char && (rest' =? "")%string then EmptyString
      else String c rest'
  | EmptyString => EmptyString
  end.

Definition strip_spaces (s : string) : string := rstrip_spaces (lstrip_spaces s).

Fixpoint decimal_digits (s : string) (acc : Z) : option Z :=
  match s with
  | EmptyString => Some acc
  | String c rest =>
      let n := Z.of_nat (nat_of_ascii c) in
      if (48 <=? n) && (n <=? 57) then decimal_digits rest (10 * acc + (n - 48))
      else None
  end.

Definition decimal_literal (s : string) : option Z :=
  match s with
  | EmptyString => None
  | _ => decimal_digits s 0
  end.

(** * Properties *)

(** ** Tactics *)

Ltac split_leb :=
  repeat (match goal with
          | |- context [Z.leb ?a ?b] => destruct (Z.leb_spec a b)
          end; cbn [andb]; try lia).

Ltac nth_cases j H :=
  repeat (destruct j as [|j]; cbn in H; [injection H as <-; cbn in *; lia|]);
  try (destruct j; discriminate H).

Ltac in_cases H :=
  cbn in H;
  repeat (destruct H as [H|H]; [subst; cbn in *; try reflexivity; try lia|]);
  try contradiction.

Ltac bind_inv H :=
  match type of H with
  | bind ?c _ = inr _ =>
      let E := fresh "E" in
      destruct c eqn:E; [discriminate H | cbn [bind] in H]
  end.

(** ** Signs of doubles *)

(** The operations of [SpecFloat] that the pipeline uses keep a clear sign
    bit: rounding never changes the sign that goes in. *)

Lemma binary_round_aux_sign mx ex lx :
  sign_clear (binary_round_aux prec emax false mx ex lx).
Proof.
  unfold binary_round_aux.
  destruct (shr_fexp prec emax mx ex lx) as [mrs' e'].
  destruct (shr_fexp prec emax _ e' loc_Exact) as [mrs'' e''].
  destruct (shr_m mrs''); [reflexivity| |exact I].
  destruct (e'' <=? emax - prec); reflexivity.
Qed.

Lemma binary_round_sign m e : sign_clear (binary_round prec emax false m e).
Proof.
  unfold binary_round.
  destruct (shl_align m e _) as [mz ez]. apply binary_round_aux_sign.
Qed.

Lemma binary_normalize_sign z e :
  0 <= z -> sign_clear (binary_normalize prec emax z e false).
Proof.
  destruct z; intros Hz; [reflexivity | apply binary_round_sign | lia].
Qed.

Lemma SFmul_sign x y :
  sign_clear x -> sign_clear y -> sign_clear (SFmul prec emax x y).
Proof.
  destruct x, y; cbn; intros; subst; cbn; auto using binary_round_aux_sign.
Qed.

Lemma SFadd_sign x y :
  sign_clear x -> sign_clear y -> sign_clear (SFadd prec emax x y).
Proof.
  destruct x, y; cbn -[binary_normalize shl_align]; intros; subst; cbn -[binary_normalize shl_align]; auto.
  apply binary_normalize_sign. lia.
Qed.

Lemma SFdiv_sign x y :
  sign_clear x -> sign_clear y -> sign_clear (SFdiv prec emax x y).
Proof.
  destruct x, y; cbn -[SFdiv_core_binary]; intros; subst; cbn -[SFdiv_core_binary]; auto.
  destruct (SFdiv_core_binary _ _ _ _ _ _) as [[mz ez] lz].
  apply binary_round_aux_sign.
Qed.

Lemma SFldexp_sign x e : sign_clear x -> sign_clear (SFldexp prec emax x e).
Proof.
  destruct x; cbn -[binary_round]; intros; subst; auto using binary_round_sign.
Qed.

Lemma SF2Prim_sign x : sign_clear x -> sign_clear (Prim2SF (SF2Prim x)).
Proof.
  destruct x as [s|s| |s m e]; cbn -[Prim2SF]; intros; subst; try reflexivity.
  unfold SF2Prim, Z.ldexp.
  rewrite ldshiftexp_spec. apply SFldexp_sign.
  rewrite of_uint63_spec. apply binary_normalize_sign.
  apply Uint63.to_Z_bounded.
Qed.

Lemma Prim2SF_zero : Prim2SF 0 = S754_zero false.
Proof. reflexivity. Qed.

Lemma Prim2SF_half : Prim2SF 0.5 = S754_finite false 4503599627370496 (-53).
Proof. reflexivity. Qed.

Lemma raw_of_int_sign z : 0 <= z -> sign_clear (raw_of_int z).
Proof. destruct z; intros Hz; [reflexivity | reflexivity | lia]. Qed.

(** The clamp returns [+0.0], a positive finite double or [+inf]. *)
Lemma max_zero_shape t :
  Prim2SF (max_zero t) = S754_zero false \/
  Prim2SF (max_zero t) = S754_infinity false \/
  exists m e, Prim2SF (max_zero t) = S754_finite false m e.
Proof.
  unfold max_zero. destruct (0 <? t)%float eqn:Hlt; [|left; reflexivity].
  rewrite ltb_spec, Prim2SF_zero in Hlt.
  destruct (Prim2SF t) as [s|s| |s m e]; cbn in Hlt; try discriminate;
    destruct s; try discriminate; eauto.
Qed.

Lemma max_zero_sign t : sign_clear (Prim2SF (max_zero t)).
Proof.
  destruct (max_zero_shape t) as [H|[H|(m & e & H)]]; rewrite H; reflexivity.
Qed.

Lemma max_zero_not_below_zero (x : float) : (max_zero x <? 0)%float = false.
Proof.
  rewrite FloatAxioms.ltb_spec, Prim2SF_zero.
  destruct (max_zero_shape x) as [H|[H|(m & e & H)]]; rewrite H; reflexivity.
Qed.

Lemma mul_sign x y :
  sign_clear (Prim2SF x) -> sign_clear (Prim2SF y) ->
  sign_clear (Prim2SF (x * y)).
Proof. intros Hx Hy. rewrite mul_spec. now apply SFmul_sign. Qed.

Lemma add_half_sign x :
  sign_clear (Prim2SF x) -> sign_clear (Prim2SF (x + 0.5)).
Proof.
  intros Hx. rewrite add_spec. apply SFadd_sign; [exact Hx|].
  rewrite Prim2SF_half. reflexivity.
Qed.

Create HintDb float_sign.
#[local] Hint Resolve max_zero_sign mul_sign add_half_sign : float_sign.

Lemma floor_int_nonneg x z :
  sign_clear (Prim2SF x) -> floor_int x = inr z -> 0 <= z.
Proof.
  unfold floor_int. destruct (Prim2SF x) as [s|s| |s m e]; cbn; intros Hs H;
    try discriminate; injection H as <-; [lia|].
  subst s. cbn. apply Z.shiftl_nonneg. lia.
Qed.

Lemma floor_int_trunc_int x :
  sign_clear (Prim2SF x) -> floor_int x = trunc_int x.
Proof.
  unfold floor_int, trunc_int.
  destruct (Prim2SF x) as [s|s| |s m e]; cbn; intros Hs; try reflexivity.
  subst s. reflexivity.
Qed.

Lemma share_of_sign a b s :
  0 <= a -> 0 <= b -> share_of a b = inr s -> sign_clear (Prim2SF s).
Proof.
  intros Ha Hb. unfold share_of, int_true_div.
  destruct (b =? 0); [intros H; injection H as <-; reflexivity|].
  pose proof (SFdiv_sign _ _ (raw_of_int_sign a Ha) (raw_of_int_sign b Hb)) as Hd.
  destruct (SFdiv prec emax (raw_of_int a) (raw_of_int b)) as [q|q| |q m e];
    intros H; try discriminate; injection H as <-; exact (SF2Prim_sign _ Hd).
Qed.

Lemma safe_int_zero : _safe_int 0 = inr 0.
Proof. reflexivity. Qed.

(** A clamped total that can be rounded to an integer is finite, and its
    product with a zero share is [+0.0]. *)
Lemma clamped_mul_zero t k :
  _safe_int (max_zero t) = inr k -> (max_zero t * 0)%float = 0%float.
Proof.
  intros Hk. apply Prim2SF_inj. rewrite mul_spec, Prim2SF_zero.
  unfold _safe_int, floor_int in Hk. rewrite add_spec, Prim2SF_half in Hk.
  destruct (max_zero_shape t) as [H|[H|(m & e & H)]]; rewrite H in *.
  - reflexivity.
  - discriminate Hk.
  - reflexivity.
Qed.

(** ** Exact rounding *)

Lemma digits2_pos_log2 (p : positive) :
  Zpos (digits2_pos p) = Z.log2 (Zpos p) + 1.
Proof.
  assert (Hsize : digits2_pos p = Pos.size p)
    by (induction p as [p IH|p IH|]; cbn; congruence).
  rewrite Hsize. destruct p; cbn; lia.
Qed.

Lemma shr_1_even (m : Z) :
  0 <= m ->
  shr_1 (Build_shr_record (2 * m) false false) = Build_shr_record m false false.
Proof. destruct m; intros Hm; [reflexivity | reflexivity | lia]. Qed.

Lemma pow2_xO (n : positive) : 2 ^ Zpos n~0 = 2 ^ Zpos n * 2 ^ Zpos n.
Proof.
  replace (Zpos n~0) with (Zpos n + Zpos n) by lia.
  apply Z.pow_add_r; lia.
Qed.

Lemma pow2_xI (n : positive) : 2 ^ Zpos n~1 = 2 * (2 ^ Zpos n * 2 ^ Zpos n).
Proof.
  replace (Zpos n~1) with (Z.succ (Zpos n + Zpos n)) by lia.
  rewrite Z.pow_succ_r by lia. rewrite Z.pow_add_r by lia. reflexivity.
Qed.

Lemma iter_pos_shr_exact (n : positive) :
  forall m, 0 <= m ->
    iter_pos shr_1 n (Build_shr_record (2 ^ Zpos n * m) false false)
    = Build_shr_record m false false.
Proof.
  induction n as [n IH|n IH|]; intros m Hm; cbn [iter_pos].
  - assert (Hp : 0 < 2 ^ Zpos n) by (apply Z.pow_pos_nonneg; lia).
    rewrite pow2_xI.
    replace (2 * (2 ^ Zpos n * 2 ^ Zpos n) * m)
      with (2 * (2 ^ Zpos n * (2 ^ Zpos n * m))) by ring.
    rewrite shr_1_even by nia. rewrite IH by nia. apply IH, Hm.
  - assert (Hp : 0 < 2 ^ Zpos n) by (apply Z.pow_pos_nonneg; lia).
    rewrite pow2_xO.
    replace (2 ^ Zpos n * 2 ^ Zpos n * m)
      with (2 ^ Zpos n * (2 ^ Zpos n * m)) by ring.
    rewrite IH by nia. apply IH, Hm.
  - apply shr_1_even, Hm.
Qed.

(** A 53-bit mantissa followed by [d] zero bits rounds to itself. *)
Lemma binary_round_aux_exact (N : positive) (d ex M : Z) :
  Z.log2 (Zpos N) = 52 -> 0 <= d -> M = 2 ^ d * Zpos N ->
  -1074 <= ex + d <= 971 ->
  binary_round_aux prec emax false M ex loc_Exact = S754_finite false N (ex + d).
Proof.
  intros HN Hd HM Hex.
  assert (Hpow : 0 < 2 ^ d) by (apply Z.pow_pos_nonneg; lia).
  assert (HMpos : 0 < M) by nia.
  destruct M as [|Mp|]; try lia.
  assert (Hdig : Zdigits2 (Zpos Mp) = d + 53).
  { cbn [Zdigits2]. rewrite digits2_pos_log2, HM, Z.mul_comm.
    rewrite Z.log2_mul_pow2 by lia. lia. }
  assert (HdigN : Zdigits2 (Zpos N) = 53).
  { cbn [Zdigits2]. rewrite digits2_pos_log2. lia. }
  assert (Hshr1 : shr_fexp prec emax (Zpos Mp) ex loc_Exact
                  = (Build_shr_record (Zpos N) false false, ex + d)).
  { unfold shr_fexp. rewrite Hdig.
    replace (fexp prec emax (d + 53 + ex) - ex) with d
      by (unfold fexp, SpecFloat.emin, prec, emax; lia).
    unfold shr, shr_record_of_loc. destruct d as [|p|]; try lia.
    - f_equal; [|lia]. f_equal. rewrite HM. cbn. reflexivity.
    - rewrite HM, iter_pos_shr_exact by lia. reflexivity. }
  assert (Hshr2 : shr_fexp prec emax (Zpos N) (ex + d) loc_Exact
                  = (Build_shr_record (Zpos N) false false, ex + d)).
  { unfold shr_fexp. rewrite HdigN.
    replace (fexp prec emax (53 + (ex + d)) - (ex + d)) with 0
      by (unfold fexp, SpecFloat.emin, prec, emax; lia).
    reflexivity. }
  unfold binary_round_aux. rewrite Hshr1.
  cbn [shr_m loc_of_shr_record round_nearest_even]. rewrite Hshr2.
  cbn [shr_m].
  replace (ex + d <=? emax - prec) with true; [reflexivity|].
  symmetry. apply Z.leb_le. unfold emax, prec. lia.
Qed.

Lemma iter_xO_pow2 (mx d : positive) :
  Zpos (Pos.iter xO mx d) = Zpos mx * 2 ^ Zpos d.
Proof.
  induction d as [|d IH] using Pos.peano_ind.
  - cbn. lia.
  - rewrite Pos.iter_succ, Pos2Z.inj_succ, Z.pow_succ_r by lia.
    change (Zpos (Pos.iter xO mx d)~0) with (2 * Zpos (Pos.iter xO mx d)).
    rewrite IH. ring.
Qed.

Lemma shl_align_value (mx : positive) (ex ex' : Z) :
  ex' <= ex ->
  Zpos (fst (shl_align mx ex ex')) = Zpos mx * 2 ^ (ex - ex').
Proof.
  intros Hle. unfold shl_align.
  destruct (ex' - ex) as [|d|d] eqn:Hd; cbn [fst]; try lia.
  - replace (ex - ex') with 0 by lia. cbn. lia.
  - rewrite iter_xO_pow2. f_equal. f_equal. lia.
Qed.

Lemma shl_align_snd (mx : positive) (ex ex' : Z) :
  ex' <= ex -> snd (shl_align mx ex ex') = ex'.
Proof.
  intros Hle. unfold shl_align.
  destruct (ex' - ex) as [|d|d] eqn:Hd; cbn [snd]; lia.
Qed.

Lemma pow2_lt_exp (a b : Z) : 0 <= a -> 0 <= b -> 2 ^ a < 2 ^ b -> a < b.
Proof. intros Ha Hb H. apply (Z.pow_lt_mono_r_iff 2); lia. Qed.

Lemma safe_int_half_integer (y : float) (X : Z) :
  is_half_integer y X -> _safe_int y = inr (X + 1).
Proof.
  intros (m & e & Hy & He & Hval).
  pose proof (Prim2SF_valid y) as Hvalid. rewrite Hy in Hvalid.
  cbn [valid_binary] in Hvalid. unfold bounded, canonical_mantissa in Hvalid.
  apply andb_true_iff in Hvalid. destruct Hvalid as [Hcanon Hemax].
  apply Z.eqb_eq in Hcanon. rewrite digits2_pos_log2 in Hcanon.
  unfold fexp, SpecFloat.emin, prec, emax in Hcanon.
  pose proof (Z.log2_spec (Zpos m) ltac:(lia)) as [Hlo Hhi].
  pose proof (Z.log2_nonneg (Zpos m)) as Hlog.
  assert (Hpe : 0 < 2 ^ (- e)) by (apply Z.pow_pos_nonneg; lia).
  assert (HX : 0 <= X) by nia.
  assert (Hge : 2 ^ (- e) <= 2 * Zpos m) by nia.
  assert (Hlt : 2 ^ (- e) < 2 ^ (Z.log2 (Zpos m) + 2)).
  { replace (Z.log2 (Zpos m) + 2) with (Z.succ (Z.succ (Z.log2 (Zpos m)))) by lia.
    rewrite (Z.pow_succ_r 2 (Z.succ _)) by lia. lia. }
  apply pow2_lt_exp in Hlt; try lia.
  assert (HL : Z.log2 (Zpos m) = 52) by lia.
  assert (Hebound : -53 <= e) by lia.
  rewrite HL in *. clear Hcanon Hlog.
  (* the sum *)
  set (k := e + 53).
  assert (H53 : 2 ^ 53 = 2 ^ k * 2 ^ (- e))
    by (rewrite <- Z.pow_add_r by lia; f_equal; lia).
  assert (Hpk : 0 < 2 ^ k) by (apply Z.pow_pos_nonneg; lia).
  assert (Hmk : Zpos m * 2 ^ k = (2 * X + 1) * 2 ^ 52).
  { assert (2 * (Zpos m * 2 ^ k) = 2 * ((2 * X + 1) * 2 ^ 52)); [|lia].
    replace (2 * ((2 * X + 1) * 2 ^ 52)) with ((2 * X + 1) * 2 ^ 53)
      by (change (2 ^ 53) with (2 * 2 ^ 52); ring).
    rewrite H53. nia. }
  (* bounds on X + 1 *)
  assert (HX1 : X + 1 <= 2 ^ 52).
  { change (Z.succ 52) with 53 in Hhi.
    assert ((2 * X + 1) * 2 ^ (- e) < 2 ^ 54)
      by (change (2 ^ 54) with (2 * 2 ^ 53); lia).
    assert (2 <= 2 ^ (- e)).
    { change 2 with (2 ^ 1) at 1. apply Z.pow_le_mono_r; lia. }
    assert (2 * (2 * X + 1) < 2 ^ 54) by nia.
    change (2 ^ 54) with (4 * 2 ^ 52) in *. lia. }
  set (lx := Z.log2 (X + 1)).
  pose proof (Z.log2_nonneg (X + 1)) as Hlx0. fold lx in Hlx0.
  assert (Hlx : lx <= 52).
  { apply (Z.log2_le_mono (X + 1) (2 ^ 52)) in HX1.
    rewrite Z.log2_pow2 in HX1 by lia. exact HX1. }
  set (N := Z.to_pos ((X + 1) * 2 ^ (52 - lx))).
  assert (Hp2 : 0 < 2 ^ (52 - lx)) by (apply Z.pow_pos_nonneg; lia).
  assert (HN : Zpos N = (X + 1) * 2 ^ (52 - lx))
    by (unfold N; rewrite Z2Pos.id; nia).
  assert (HNlog : Z.log2 (Zpos N) = 52).
  { rewrite HN, Z.log2_mul_pow2 by lia. fold lx. lia. }
  (* the addition *)
  unfold _safe_int, floor_int.
  rewrite FloatAxioms.add_spec, Hy, Prim2SF_half.
  unfold SF64add, SFadd.
  replace (Z.min e (-53)) with (-53) by lia.
  cbn [cond_Zopp].
  pose proof (shl_align_value m e (-53) ltac:(lia)) as Ha.
  pose proof (shl_align_value 4503599627370496 (-53) (-53) ltac:(lia)) as Hb.
  replace (e - -53) with k in Ha by (unfold k; lia).
  change (-53 - -53) with 0 in Hb. rewrite Z.pow_0_r, Z.mul_1_r in Hb.
  set (S := Zpos (fst (shl_align m e (-53)))
            + Zpos (fst (shl_align 4503599627370496 (-53) (-53)))).
  assert (HS : S = 2 ^ (lx + 1) * Zpos N).
  { unfold S. rewrite Ha, Hb, Hmk, HN.
    change (Zpos 4503599627370496) with (2 ^ 52).
    replace ((2 * X + 1) * 2 ^ 52 + 2 ^ 52) with ((X + 1) * 2 ^ 53)
      by (change (2 ^ 53) with (2 * 2 ^ 52); ring).
    replace (2 ^ 53) with (2 ^ (lx + 1) * 2 ^ (52 - lx))
      by (rewrite <- Z.pow_add_r by lia; f_equal; lia).
    ring. }
  clearbody S.
  assert (Hp3 : 0 < 2 ^ (lx + 1)) by (apply Z.pow_pos_nonneg; lia).
  destruct S as [|Sp|Sp]; try lia.
  unfold binary_normalize, binary_round.
  assert (Hdig : Zpos (digits2_pos Sp) = lx + 1 + 53).
  { rewrite digits2_pos_log2, HS, Z.mul_comm.
    rewrite Z.log2_mul_pow2 by lia. lia. }
  rewrite Hdig.
  replace (fexp prec emax (lx + 1 + 53 + -53)) with (lx + 1 + -53)
    by (unfold fexp, SpecFloat.emin, prec, emax; lia).
  unfold shl_align at 1.
  replace (lx + 1 + -53 - -53) with (lx + 1) by lia.
  destruct (lx + 1) as [|d|d] eqn:Hd; try lia.
  rewrite (binary_round_aux_exact N (Zpos d) (-53) (Zpos Sp)); try lia;
    try assumption.
  cbn [cond_Zopp]. unfold ret. f_equal.
  rewrite Z.shiftl_div_pow2 by lia.
  replace (- (-53 + Zpos d)) with (52 - lx) by lia.
  rewrite HN. apply Z.div_mul. lia.
Qed.


(** ** Bracket resolution and the per-child loop *)

Lemma income_bracket_loop_spec (mw : Z) :
  0 <= mw ->
  exists idx b,
    Guideline2021.income_bracket_loop INCOME_BRACKETS_MW 0 mw = Some idx /\
    nth_error INCOME_BRACKETS_MW idx = Some b /\
    in_income_bracket b mw /\
    (forall j b', nth_error INCOME_BRACKETS_MW j = Some b' ->
                  in_income_bracket b' mw -> j = idx).
Proof.
  intros Hmw. unfold INCOME_BRACKETS_MW, in_income_bracket.
  cbn [Guideline2021.income_bracket_loop]. rewrite !Z.geb_leb.
  split_leb;
    (eexists; eexists; split; [reflexivity|]; split; [reflexivity|];
     split; [cbn; lia|]; intros j b' Hj [Hlo Hhi];
     nth_cases j Hj).
Qed.

Lemma cell_defined (a c : Z) :
  0 <= a <= 18 -> 0 <= c ->
  exists cl row entry idx,
    Guideline2021.cell a c = inr cl /\
    Guideline2021.age_label_for a = inr (age_label cl) /\
    Guideline2021.income_bracket_index c = inr idx /\
    dict_get TABLE_2021 (age_label cl) = inr row /\
    nth_error row idx = Some entry /\
    nth_error INCOME_BRACKETS_MW idx = Some (income_bracket_mw cl) /\
    avg_krw cl = entry_avg entry /\
    low_krw cl = entry_low entry /\
    high_krw cl = entry_high entry /\
    621000 <= avg_krw cl <= 2883000.
Proof.
  intros Ha Hc.
  assert (Hmw : 0 <= c / 10000) by (apply Z.div_pos; lia).
  unfold Guideline2021.cell, Guideline2021.age_label_for,
    Guideline2021.income_bracket_index, AGE_BRACKETS, INCOME_BRACKETS_MW.
  cbn [Guideline2021.age_label_loop Guideline2021.income_bracket_loop].
  rewrite !Z.geb_leb.
  generalize dependent (c / 10000). intros mw Hmw.
  split_leb; (do 4 eexists; repeat split; try reflexivity; cbn; lia).
Qed.

Lemma standard_support_defined (kids : list Child) (combined : Z) :
  Forall (fun k => 0 <= age k <= 18) kids -> 0 <= combined ->
  forall cells total,
    exists cells',
      standard_support kids combined cells total
        = inr (cells ++ cells', total + sum_avg cells') /\
      List.length cells' = List.length kids /\
      map (fun c => inr (age_label c)) cells'
        = map (fun k => Guideline2021.age_label_for (age k)) kids.
Proof.
  intros Hages Hc. induction Hages as [|k kids Hk Hkids IH]; intros cells total.
  - exists []. cbn. rewrite app_nil_r, Z.add_0_r. auto.
  - destruct (cell_defined (age k) combined Hk Hc)
      as (cl & row & entry & idx & Hcell & Hlabel & _).
    destruct (IH (cells ++ [cl]) (total + avg_krw cl)) as (rest & Hrest & Hlen & Hlab).
    exists (cl :: rest). cbn [standard_support]. rewrite Hcell. cbn [bind].
    rewrite Hrest, <- app_assoc. cbn [app List.length map].
    split; [|split].
    + f_equal. f_equal. unfold sum_avg. cbn [fold_right]. lia.
    + congruence.
    + rewrite Hlabel, Hlab. reflexivity.
Qed.

Lemma sum_avg_bounds (cells : list ChildCell) :
  Forall (fun c => 621000 <= avg_krw c <= 2883000) cells ->
  621000 * Z.of_nat (List.length cells) <= sum_avg cells
    <= 2883000 * Z.of_nat (List.length cells).
Proof.
  unfold sum_avg. induction 1 as [|c cells Hc Hcells IH].
  - cbn. lia.
  - cbn [fold_right List.length]. rewrite Nat2Z.inj_succ. lia.
Qed.

Lemma standard_support_bounds (kids : list Child) (combined : Z) :
  forall cells total cells' total',
    standard_support kids combined cells total = inr (cells', total') ->
    exists new,
      cells' = cells ++ new /\ total' = total + sum_avg new /\
      List.length new = List.length kids /\
      Forall (fun c => 621000 <= avg_krw c <= 2883000) new.
Proof.
  induction kids as [|k kids IH]; intros cells total cells' total' H.
  - injection H as <- <-. exists []. cbn. rewrite app_nil_r, Z.add_0_r. auto.
  - cbn [standard_support] in H.
    destruct (Guideline2021.cell (age k) combined) as [e|cl] eqn:Hcell;
      [discriminate H|].
    cbn [bind] in H.
    destruct (IH _ _ _ _ H) as (new & -> & -> & Hlen & Hall).
    exists (cl :: new). rewrite <- app_assoc. cbn [app List.length].
    repeat split; try congruence.
    + unfold sum_avg. cbn [fold_right]. lia.
    + constructor; [|exact Hall].
      unfold Guideline2021.cell in Hcell.
      destruct (Guideline2021.age_label_for (age k)) as [|label] eqn:Hlabel;
        [discriminate Hcell|].
      cbn [bind] in Hcell.
      unfold Guideline2021.age_label_for, AGE_BRACKETS in Hlabel.
      cbn [Guideline2021.age_label_loop] in Hlabel.
      unfold Guideline2021.income_bracket_index, INCOME_BRACKETS_MW in Hcell.
      cbn [Guideline2021.income_bracket_loop] in Hcell.
      rewrite !Z.geb_leb in Hcell.
      repeat match type of Hlabel with
             | (if ?b then _ else _) = _ => destruct b
             end; try discriminate Hlabel; injection Hlabel as <-;
      repeat match type of Hcell with
             | context [if ?b then _ else _] => destruct b
             end; try discriminate Hcell; injection Hcell as <-; cbn; lia.
Qed.


(** ** The adjustment fold *)

Lemma apply_adjustment_recognized (t : float) (a : Adjustment) :
  recognized a = true ->
  exists record, apply_adjustment t a = inr (adjustment_step_spec t a, record).
Proof.
  unfold recognized, apply_adjustment, adjustment_step_spec.
  destruct (type a =? "multiplier")%string eqn:Hm.
  - apply String.eqb_eq in Hm. rewrite Hm. cbn.
    destruct (is_percent a); eexists; reflexivity.
  - destruct (type a =? "add")%string; [eexists; reflexivity|].
    destruct (type a =? "subtract")%string; [eexists; reflexivity|].
    discriminate.
Qed.

Lemma apply_adjustment_unrecognized (t : float) (a : Adjustment) :
  recognized a = false ->
  apply_adjustment t a = inl (InvalidAdjustmentError (type a)).
Proof.
  unfold recognized, apply_adjustment. intros H.
  apply orb_false_elim in H. destruct H as [H Hsub].
  apply orb_false_elim in H. destruct H as [Hmul Hadd].
  rewrite Hmul, Hadd, Hsub. reflexivity.
Qed.

Lemma apply_adjustments_app (l1 l2 : list Adjustment) :
  forall t acc,
    apply_adjustments (l1 ++ l2) t acc =
    ('(t', acc') <- apply_adjustments l1 t acc ;; apply_adjustments l2 t' acc').
Proof.
  induction l1 as [|a l1 IH]; intros t acc; [reflexivity|].
  cbn [app apply_adjustments].
  destruct (apply_adjustment t a) as [e|[t1 record]]; [reflexivity|].
  cbn [bind]. apply IH.
Qed.

Lemma apply_adjustments_recognized (adj : list Adjustment) :
  forallb recognized adj = true ->
  forall t acc,
    exists acc',
      apply_adjustments adj t acc = inr (fold_left adjustment_step_spec adj t, acc').
Proof.
  induction adj as [|a adj IH]; intros Hall t acc; [eexists; reflexivity|].
  cbn in Hall. apply andb_true_iff in Hall. destruct Hall as [Ha Hall].
  destruct (apply_adjustment_recognized t a Ha) as [record Hstep].
  cbn [apply_adjustments fold_left]. rewrite Hstep. cbn [bind].
  apply IH, Hall.
Qed.

Lemma apply_adjustments_error (adj : list Adjustment) :
  forall t acc e,
    apply_adjustments adj t acc = inl e ->
    exists a, In a adj /\ recognized a = false /\
              e = InvalidAdjustmentError (type a).
Proof.
  induction adj as [|a adj IH]; intros t acc e H; [discriminate H|].
  cbn [apply_adjustments] in H.
  destruct (recognized a) eqn:Ha.
  - destruct (apply_adjustment_recognized t a Ha) as [record Hstep].
    rewrite Hstep in H. cbn [bind] in H.
    destruct (IH _ _ _ H) as (a' & Hin & Hrec & He).
    exists a'. split; [right; exact Hin | auto].
  - rewrite (apply_adjustment_unrecognized t a Ha) in H. cbn in H.
    injection H as <-. exists a. split; [left; reflexivity | auto].
Qed.


Lemma apply_adjustments_records (adj : list Adjustment) :
  forall t acc t' acc',
    apply_adjustments adj t acc = inr (t', acc') ->
    map applied_fields acc' = map applied_fields acc ++ adj.
Proof.
  induction adj as [|a adj IH]; intros t acc t' acc' H.
  - injection H as <- <-. now rewrite app_nil_r.
  - cbn [apply_adjustments] in H.
    destruct (apply_adjustment t a) as [e|[t1 record]] eqn:Hstep;
      [discriminate H|].
    cbn [bind] in H. apply IH in H. rewrite H, map_app. cbn [map].
    rewrite <- app_assoc. cbn [app]. do 2 f_equal.
    unfold apply_adjustment in Hstep.
    repeat match type of Hstep with
           | (if ?b then _ else _) = _ => destruct b
           end; try discriminate Hstep; now injection Hstep as <- <-.
Qed.

(** ** The stages of a run *)

Section SuccessfulRun.

Variables (inputs : CalculationInputs) (r : CalculationBreakdown).
Hypothesis Hrun : calculate_child_support inputs = inr r.

(** Every stage of a successful run, read off the result. *)
Lemma calculate_inv :
  children inputs <> [] /\
  0 <= cust_income_of inputs /\ 0 <= noncust_income_of inputs /\
  exists standard_total_f total,
    Guideline2021.income_bracket_index (combined_of inputs)
      = inr (income_bracket_index r) /\
    standard_support (children inputs) (combined_of inputs) [] 0
      = inr (standard_children_cells r, standard_total_krw r) /\
    select_multiplier (List.length (children inputs))
      = inr (child_count_multiplier r) /\
    float_of_int (standard_total_krw r) = inr standard_total_f /\
    apply_adjustments (adj_of inputs)
        (standard_total_f * child_count_multiplier r)%float []
      = inr (total, applied_adjustments r) /\
    share_of (noncust_income_of inputs) (combined_of inputs)
      = inr (non_custodial_share r) /\
    _safe_int (max_zero total * non_custodial_share r)%float
      = inr (non_custodial_payment_krw r) /\
    _safe_int (max_zero total) = inr (adjusted_total_krw r) /\
    combined_income_krw r = combined_of inputs /\
    combined_income_mw r = combined_of inputs / 10000.
Proof.
  pose proof Hrun as H. unfold calculate_child_support in H.
  destruct (children inputs) as [|c0 kids] eqn:Hkids; [discriminate H|].
  rewrite <- Hkids in *.
  destruct ((cust_income_of inputs <? 0) || (noncust_income_of inputs <? 0))
    eqn:Hneg; [discriminate H|].
  apply orb_false_elim in Hneg. destruct Hneg as [Hc Hn].
  apply Z.ltb_ge in Hc, Hn.
  bind_inv H. bind_inv H. destruct p as [cells standard_total].
  bind_inv H. bind_inv H. bind_inv H. destruct p as [total applied].
  bind_inv H. bind_inv H. bind_inv H.
  injection H as <-. cbn.
  split; [rewrite Hkids; discriminate|].
  split; [exact Hc|]. split; [exact Hn|].
  exists f0, total. repeat split; assumption.
Qed.

(** The unrounded clamped total of the run and its two roundings. *)
Lemma calculate_unrounded :
  exists t,
    unrounded_adjusted_total inputs = inr t /\
    sign_clear (Prim2SF t) /\
    _safe_int (t * non_custodial_share r)%float = inr (non_custodial_payment_krw r) /\
    _safe_int t = inr (adjusted_total_krw r).
Proof.
  destruct calculate_inv as (_ & _ & _ & f & total & _ & Hstd & Hm & Hf & Hadj & _ & Hp & Hk & _).
  exists (max_zero total). split; [|split; [apply max_zero_sign | split; assumption]].
  unfold unrounded_adjusted_total, seed_total.
  rewrite Hstd. cbn [bind]. rewrite Hm. cbn [bind]. rewrite Hf. cbn [bind ret].
  rewrite Hadj. reflexivity.
Qed.

End SuccessfulRun.

(** Conversely, a request that passes validation and whose stages succeed
    yields the result assembled from them. *)
Lemma calculate_intro (inputs : CalculationInputs)
    bracket_idx cells standard_total m standard_total_f total applied
    share payment krw :
  children inputs <> [] ->
  0 <= cust_income_of inputs -> 0 <= noncust_income_of inputs ->
  Guideline2021.income_bracket_index (combined_of inputs) = inr bracket_idx ->
  standard_support (children inputs) (combined_of inputs) [] 0
    = inr (cells, standard_total) ->
  select_multiplier (List.length (children inputs)) = inr m ->
  float_of_int standard_total = inr standard_total_f ->
  apply_adjustments (adj_of inputs) (standard_total_f * m)%float []
    = inr (total, applied) ->
  share_of (noncust_income_of inputs) (combined_of inputs) = inr share ->
  _safe_int (max_zero total * share)%float = inr payment ->
  _safe_int (max_zero total) = inr krw ->
  calculate_child_support inputs =
    inr {| combined_income_krw := combined_of inputs;
           combined_income_mw := combined_of inputs / 10000;
           income_bracket_index := bracket_idx;
           standard_children_cells := cells;
           standard_total_krw := standard_total;
           child_count_multiplier := m;
           adjusted_total_krw := krw;
           non_custodial_share := share;
           non_custodial_payment_krw := payment;
           applied_adjustments := applied |}.
Proof.
  intros Hkids Hc Hn Hidx Hstd Hm Hf Hadj Hshare Hpay Hkrw.
  unfold calculate_child_support.
  assert (Hmatch : forall (A : Type) (x y : A),
             match children inputs with [] => x | _ :: _ => y end = y)
    by (destruct (children inputs); [contradiction | reflexivity]).
  rewrite Hmatch.
  apply Z.ltb_ge in Hc, Hn. rewrite Hc, Hn. cbn [orb].
  rewrite Hidx. cbn [bind]. rewrite Hstd. cbn [bind].
  rewrite Hm. cbn [bind]. rewrite Hf. cbn [bind].
  rewrite Hadj. cbn [bind]. rewrite Hshare. cbn [bind].
  rewrite Hpay. cbn [bind]. rewrite Hkrw. reflexivity.
Qed.

Lemma unrounded_inv (inputs : CalculationInputs) (t : float) :
  unrounded_adjusted_total inputs = inr t ->
  exists cells standard_total m standard_total_f total applied,
    standard_support (children inputs) (combined_of inputs) [] 0
      = inr (cells, standard_total) /\
    select_multiplier (List.length (children inputs)) = inr m /\
    float_of_int standard_total = inr standard_total_f /\
    apply_adjustments (adj_of inputs) (standard_total_f * m)%float []
      = inr (total, applied) /\
    t = max_zero total.
Proof.
  unfold unrounded_adjusted_total, seed_total. intros H.
  bind_inv H. destruct (standard_support _ _ _ _) as [|[cells st]] eqn:Hstd;
    [discriminate E|]. cbn [bind] in E.
  destruct (select_multiplier _) as [|m] eqn:Hm; [discriminate E|].
  cbn [bind] in E.
  destruct (float_of_int st) as [|stf] eqn:Hf; [discriminate E|].
  cbn [bind ret] in E. injection E as <-.
  bind_inv H. destruct p as [total applied]. injection H as <-.
  exists cells, st, m, stf, total, applied. auto.
Qed.

(** ** The claims *)

(** C1. Scenario A (incomes 2,000,000 and 3,000,000, one child aged 8, no
    imputed income, no adjustment) succeeds with combined income
    5,000,000, the income bracket (500, 599), the age label of 6 to 8, the
    standard total 1,292,000 of that cell, multiplier 1.065, share 0.6 and
    the payment 825,588, which is the half-up rounding of
    1,292,000 * 1.065 * 0.6. *)
Theorem scenario_A_result :
  calculate_child_support scenario_A =
    inr {| combined_income_krw := 5000000;
           combined_income_mw := 500;
           income_bracket_index := 4;
           standard_children_cells :=
             [ {| age_label := "6~8세";
                  income_bracket_mw := (500, Some 599);
                  avg_krw := 1292000;
                  low_krw := 1217000;
                  high_krw := Some 1385000 |} ];
           standard_total_krw := 1292000;
           child_count_multiplier := 1.065%float;
           adjusted_total_krw := 1375980;
           non_custodial_share := 0.6%float;
           non_custodial_payment_krw := 825588;
           applied_adjustments := [] |}
  /\ nth_error INCOME_BRACKETS_MW 4 = Some (500, Some 599)
  /\ _safe_int (1292000 * 1.065 * 0.6)%float = inr 825588.
Proof.
  repeat split; vm_compute; reflexivity.
Qed.

(** C2. For every non-negative combined income, the bracket lookup
    returns an index: the income divided by 10,000 (floor division, which
    is truncation for a non-negative income) lies in the bracket at that
    index, closed or open-ended, no other bracket contains it, and the
    lookup raises no error. *)
Theorem income_bracket_index_total (combined : Z) :
  0 <= combined ->
  combined / 10000 = combined ÷ 10000 /\
  (exists idx b,
      Guideline2021.income_bracket_index combined = inr idx /\
      nth_error INCOME_BRACKETS_MW idx = Some b /\
      in_income_bracket b (combined / 10000) /\
      (forall j b', nth_error INCOME_BRACKETS_MW j = Some b' ->
                    in_income_bracket b' (combined / 10000) -> j = idx)) /\
  (forall e, Guideline2021.income_bracket_index combined <> inl e).
Proof.
  intros Hc.
  assert (Hmw : 0 <= combined / 10000) by (apply Z.div_pos; lia).
  destruct (income_bracket_loop_spec _ Hmw) as (idx & b & Hloop & Hnth & Hin & Huniq).
  split; [symmetry; apply Z.quot_div_nonneg; lia|].
  unfold Guideline2021.income_bracket_index. rewrite Hloop.
  split; [|discriminate].
  exists idx, b. auto.
Qed.

Lemma income_bracket_index_total_witness :
  0 <= 5000000 /\
  (5000000 / 10000 = 5000000 ÷ 10000 /\
   (exists idx b,
       Guideline2021.income_bracket_index 5000000 = inr idx /\
       nth_error INCOME_BRACKETS_MW idx = Some b /\
       in_income_bracket b (5000000 / 10000) /\
       (forall j b', nth_error INCOME_BRACKETS_MW j = Some b' ->
                     in_income_bracket b' (5000000 / 10000) -> j = idx)) /\
   (forall e, Guideline2021.income_bracket_index 5000000 <> inl e)).
Proof.
  split; [lia | apply (income_bracket_index_total 5000000); lia].
Defined.




(** C4. The adjustment engine folds the list left to right in the order
    given (a list split in two is the fold of the first part followed by
    the fold of the second), adding for "add", subtracting for
    "subtract", multiplying by the value for a factor and by
    (1 + value) for a percentage.  On a running total of 100000,
    [+10000, +10%] gives the double 121000.00000000001 (1.1 has no exact
    binary representation), reported as 121000 once rounded half-up, and
    [+10%, +10000] gives 120000.00000000001, reported as 120000. *)
Theorem adjustments_fold_in_order :
  (forall l1 l2 t acc,
      apply_adjustments (l1 ++ l2) t acc =
      ('(t', acc') <- apply_adjustments l1 t acc ;; apply_adjustments l2 t' acc')) /\
  (forall adj t acc,
      forallb recognized adj = true ->
      exists acc',
        apply_adjustments adj t acc
          = inr (fold_left adjustment_step_spec adj t, acc')) /\
  (forall t n v p nt,
      adjustment_step_spec t (mkAdjustment n "add" v p nt) = (t + v)%float /\
      adjustment_step_spec t (mkAdjustment n "subtract" v p nt) = (t - v)%float /\
      adjustment_step_spec t (mkAdjustment n "multiplier" v false nt) = (t * v)%float /\
      adjustment_step_spec t (mkAdjustment n "multiplier" v true nt)
        = (t * (1 + v))%float) /\
  (exists acc1 acc2,
      apply_adjustments add_then_percent 100000 []
        = inr (121000.00000000001%float, acc1) /\
      _safe_int 121000.00000000001 = inr 121000 /\
      apply_adjustments percent_then_add 100000 []
        = inr (120000.00000000001%float, acc2) /\
      _safe_int 120000.00000000001 = inr 120000).
Proof.
  split; [exact apply_adjustments_app|].
  split; [intros adj t acc Hall; apply apply_adjustments_recognized, Hall|].
  split; [intros; repeat split|].
  eexists. eexists. repeat split; vm_compute; reflexivity.
Qed.

Lemma adjustments_fold_in_order_witness :
  forallb recognized add_then_percent = true /\
  exists acc',
    apply_adjustments add_then_percent 100000 []
      = inr (fold_left adjustment_step_spec add_then_percent 100000%float, acc').
Proof.
  split; [reflexivity|].
  destruct adjustments_fold_in_order as (_ & Hfold & _).
  apply (Hfold add_then_percent); reflexivity.
Defined.

(** C4, as stated, fails: the two folds of the example do not yield the
    doubles 121000 and 120000. *)
Lemma adjustments_example_not_exact :
  exists t1 acc1 t2 acc2,
    apply_adjustments add_then_percent 100000 [] = inr (t1, acc1) /\
    apply_adjustments percent_then_add 100000 [] = inr (t2, acc2) /\
    (t1 =? 121000)%float = false /\ t1 <> 121000%float /\
    (t2 =? 120000)%float = false /\ t2 <> 120000%float.
Proof.
  do 4 eexists. split; [vm_compute; reflexivity|].
  split; [vm_compute; reflexivity|].
  repeat split; try reflexivity;
    intros H; apply (f_equal Prim2SF) in H; vm_compute in H; discriminate H.
Qed.

(** C5. For every successful calculation the adjusted total of the result
    is not negative: it is the half-up rounding of the running total
    clamped by [max(0, .)] after the adjustment fold, and the clamped total
    is never below zero, whatever the adjustments. *)
Theorem adjusted_total_never_negative
    (inputs : CalculationInputs) (r : CalculationBreakdown) :
  calculate_child_support inputs = inr r ->
  0 <= adjusted_total_krw r /\
  exists seed total applied,
    seed_total inputs = inr seed /\
    apply_adjustments (adj_of inputs) seed [] = inr (total, applied) /\
    unrounded_adjusted_total inputs = inr (max_zero total) /\
    (max_zero total <? 0)%float = false /\
    _safe_int (max_zero total) = inr (adjusted_total_krw r).
Proof.
  intros H. apply calculate_inv in H.
  destruct H as (_ & _ & _ & f & total & _ & Hstd & Hm & Hf & Hadj & _ & _ & Hk & _).
  split.
  - unfold _safe_int in Hk. eapply floor_int_nonneg; [|exact Hk].
    auto with float_sign.
  - exists (f * child_count_multiplier r)%float, total, (applied_adjustments r).
    assert (Hseed : seed_total inputs = inr (f * child_count_multiplier r)%float).
    { unfold seed_total. rewrite Hstd. cbn [bind]. rewrite Hm. cbn [bind].
      rewrite Hf. reflexivity. }
    repeat split; try assumption.
    + unfold unrounded_adjusted_total. rewrite Hseed. cbn [bind].
      rewrite Hadj. reflexivity.
    + apply max_zero_not_below_zero.
Qed.

Lemma adjusted_total_never_negative_witness :
  exists r,
    calculate_child_support scenario_oversubtract = inr r /\
    adjusted_total_krw r = 0 /\
    (0 <= adjusted_total_krw r /\
     exists seed total applied,
       seed_total scenario_oversubtract = inr seed /\
       apply_adjustments (adj_of scenario_oversubtract) seed []
         = inr (total, applied) /\
       unrounded_adjusted_total scenario_oversubtract = inr (max_zero total) /\
       (max_zero total <? 0)%float = false /\
       _safe_int (max_zero total) = inr (adjusted_total_krw r)).
Proof.
  eexists. split; [vm_compute; reflexivity|]. split; [reflexivity|].
  apply (adjusted_total_never_negative scenario_oversubtract).
  vm_compute. reflexivity.
Defined.

(** C6. When the combined income after imputation is zero, every result
    has share 0 and payment 0, and the calculation succeeds whenever the
    request has a child, no negative income, and an adjusted total that
    can be computed and rounded: zero income is no cause of failure,
    whatever the children and the adjustments. *)
Theorem zero_combined_income_pays_zero (inputs : CalculationInputs) :
  combined_of inputs = 0 ->
  (forall r, calculate_child_support inputs = inr r ->
             non_custodial_share r = 0%float /\ non_custodial_payment_krw r = 0) /\
  (forall t krw,
      children inputs <> [] ->
      0 <= cust_income_of inputs -> 0 <= noncust_income_of inputs ->
      unrounded_adjusted_total inputs = inr t ->
      _safe_int t = inr krw ->
      exists r, calculate_child_support inputs = inr r /\
                non_custodial_share r = 0%float /\
                non_custodial_payment_krw r = 0 /\
                adjusted_total_krw r = krw).
Proof.
  intros Hzero. split.
  - intros r H. apply calculate_inv in H.
    destruct H as (_ & _ & _ & f & total & _ & _ & _ & _ & _ & Hs & Hp & Hk & _).
    rewrite Hzero in Hs. cbn in Hs. injection Hs as Hs.
    rewrite <- Hs in *. split; [reflexivity|].
    rewrite (clamped_mul_zero _ _ Hk), safe_int_zero in Hp.
    now injection Hp.
  - intros t krw Hkids Hc Hn Ht Hk.
    destruct (unrounded_inv _ _ Ht)
      as (cells & st & m & stf & total & applied & Hstd & Hm & Hf & Hadj & ->).
    eexists. split.
    + eapply calculate_intro; try eassumption.
      * rewrite Hzero. reflexivity.
      * rewrite Hzero. reflexivity.
      * rewrite (clamped_mul_zero _ _ Hk). apply safe_int_zero.
    + cbn. auto.
Qed.

Lemma zero_combined_income_pays_zero_witness :
  combined_of scenario_zero_income = 0 /\
  exists r, calculate_child_support scenario_zero_income = inr r /\
            non_custodial_share r = 0%float /\
            non_custodial_payment_krw r = 0 /\
            adjusted_total_krw r = 740120.
Proof.
  split; [reflexivity|].
  destruct (zero_combined_income_pays_zero scenario_zero_income eq_refl)
    as [_ Hsucc].
  apply (Hsucc 740120%float 740120);
    [discriminate | vm_compute; discriminate | vm_compute; discriminate
    | vm_compute; reflexivity | vm_compute; reflexivity].
Defined.

(** C7. For every successful calculation the payment is the half-up
    rounding of the unrounded adjusted total times the share, where
    half-up rounding adds 0.5 and truncates toward zero (the source takes
    the floor, which is the same on these non-negative products); and a
    raw payment of exactly X.5 gives X + 1, for every double that is a
    half-integer, as for 0.5, 1.5, 2.5, 626000.5 and the request whose raw
    payment is 1,252,001 * 0.5. *)
Theorem payment_is_round_half_up :
  (forall inputs r,
      calculate_child_support inputs = inr r ->
      exists t,
        unrounded_adjusted_total inputs = inr t /\
        round_half_up_spec (t * non_custodial_share r)%float
          = inr (non_custodial_payment_krw r) /\
        _safe_int (t * non_custodial_share r)%float
          = round_half_up_spec (t * non_custodial_share r)%float /\
        (forall X, is_half_integer (t * non_custodial_share r)%float X ->
                   non_custodial_payment_krw r = X + 1)) /\
  (forall y X, is_half_integer y X ->
               _safe_int y = inr (X + 1) /\ round_half_up_spec y = inr (X + 1)) /\
  (_safe_int 0.5 = inr 1 /\ _safe_int 1.5 = inr 2 /\ _safe_int 2.5 = inr 3 /\
   _safe_int 626000.5 = inr 626001) /\
  (exists r,
      calculate_child_support scenario_tie = inr r /\
      unrounded_adjusted_total scenario_tie = inr 1252001%float /\
      (1252001 * non_custodial_share r)%float = 626000.5%float /\
      is_half_integer 626000.5 626000 /\
      non_custodial_payment_krw r = 626001).
Proof.
  split; [|split; [|split]].
  - intros inputs r H.
    destruct (calculate_unrounded _ _ H) as (t & Ht & Hsign & Hp & _).
    apply calculate_inv in H.
    destruct H as (_ & Hc & Hn & _ & _ & _ & _ & _ & _ & _ & Hs & _).
    assert (Heq : _safe_int (t * non_custodial_share r)%float
                  = round_half_up_spec (t * non_custodial_share r)%float).
    { unfold _safe_int, round_half_up_spec. apply floor_int_trunc_int.
      apply add_half_sign, mul_sign; [exact Hsign|].
      eapply share_of_sign; [exact Hn| |exact Hs].
      unfold combined_of. lia. }
    exists t. rewrite <- Heq. repeat split; auto.
    intros X HX. apply safe_int_half_integer in HX. congruence.
  - intros y X HX. pose proof (safe_int_half_integer y X HX) as Hy.
    split; [exact Hy|]. rewrite <- Hy.
    unfold _safe_int, round_half_up_spec. symmetry. apply floor_int_trunc_int.
    apply add_half_sign. destruct HX as (m & e & -> & _). reflexivity.
  - repeat split; vm_compute; reflexivity.
  - eexists. split; [vm_compute; reflexivity|].
    split; [vm_compute; reflexivity|]. split; [vm_compute; reflexivity|].
    split; [|reflexivity].
    eexists. eexists. split; [vm_compute; reflexivity|].
    split; [lia | vm_compute; reflexivity].
Qed.

Lemma payment_is_round_half_up_witness :
  exists r t,
    calculate_child_support scenario_A = inr r /\
    unrounded_adjusted_total scenario_A = inr t /\
    round_half_up_spec (t * non_custodial_share r)%float = inr 825588.
Proof.
  exists {| combined_income_krw := 5000000;
            combined_income_mw := 500;
            income_bracket_index := 4;
            standard_children_cells :=
              [ {| age_label := "6~8세";
                   income_bracket_mw := (500, Some 599);
                   avg_krw := 1292000;
                   low_krw := 1217000;
                   high_krw := Some 1385000 |} ];
            standard_total_krw := 1292000;
            child_count_multiplier := 1.065%float;
            adjusted_total_krw := 1375980;
            non_custodial_share := 0.6%float;
            non_custodial_payment_krw := 825588;
            applied_adjustments := [] |}.
  destruct payment_is_round_half_up as [Hall _].
  destruct (Hall scenario_A _ ltac:(vm_compute; reflexivity)) as (t & Ht & Hp & _).
  exists t. split; [vm_compute; reflexivity|]. split; [exact Ht | exact Hp].
Defined.

(** C8. For every integer age from 0 through 18 the age lookup returns the
    label of a bracket that contains the age, and no other bracket
    contains it (no gap, no overlap); the lookup fails, with the
    out-of-range error, exactly when the age is negative or above 18,
    which is exactly when no bracket contains it. *)
Theorem age_label_for_partition (a : Z) :
  (0 <= a <= 18 ->
   exists a_min a_max label,
     Guideline2021.age_label_for a = inr label /\
     In (a_min, a_max, label) AGE_BRACKETS /\ a_min <= a <= a_max /\
     (forall b', In b' AGE_BRACKETS -> in_age_bracket b' a ->
                 b' = (a_min, a_max, label))) /\
  (Guideline2021.age_label_for a = inl (OutOfRangeError a) <-> a < 0 \/ 18 < a) /\
  (a < 0 \/ 18 < a <->
   ~ exists b, In b AGE_BRACKETS /\ in_age_bracket b a) /\
  (forall e, Guideline2021.age_label_for a = inl e -> e = OutOfRangeError a).
Proof.
  unfold Guideline2021.age_label_for, AGE_BRACKETS, in_age_bracket.
  cbn [Guideline2021.age_label_loop].
  repeat split.
  - intros Ha. split_leb;
      (do 3 eexists; split; [reflexivity|];
       split; [cbn; repeat (first [left; reflexivity | right])|];
       split; [lia|]; intros b' Hin Hb'; in_cases Hin).
  - split_leb; discriminate.
  - intros Ha. split_leb; reflexivity.
  - intros Ha (b & Hin & Hb). in_cases Hin.
  - intros Hno.
    destruct (Z_lt_le_dec a 0) as [|H0]; [lia|].
    destruct (Z_lt_le_dec 18 a) as [|H18]; [lia|].
    exfalso. apply Hno.
    destruct (Z_le_gt_dec a 2); [eexists; split; [left; reflexivity | cbn; lia]|].
    destruct (Z_le_gt_dec a 5);
      [eexists; split; [right; left; reflexivity | cbn; lia]|].
    destruct (Z_le_gt_dec a 8);
      [eexists; split; [do 2 right; left; reflexivity | cbn; lia]|].
    destruct (Z_le_gt_dec a 11);
      [eexists; split; [do 3 right; left; reflexivity | cbn; lia]|].
    destruct (Z_le_gt_dec a 14);
      [eexists; split; [do 4 right; left; reflexivity | cbn; lia]|].
    eexists; split; [do 5 right; left; reflexivity | cbn; lia].
  - intros e. split_leb; intros He; try discriminate He;
      injection He as <-; reflexivity.
Qed.

Lemma age_label_for_partition_witness :
  0 <= 8 <= 18 /\
  exists a_min a_max label,
    Guideline2021.age_label_for 8 = inr label /\
    In (a_min, a_max, label) AGE_BRACKETS /\ a_min <= 8 <= a_max /\
    (forall b', In b' AGE_BRACKETS -> in_age_bracket b' 8 ->
                b' = (a_min, a_max, label)).
Proof.
  split; [lia|].
  destruct (age_label_for_partition 8) as [Hin _]. apply Hin. lia.
Defined.

(** C9. The child-count multiplier depends on the number of children
    only: 1.065 for one child, 1.0 for two, 0.783 for every count of three
    or more (3, 4 and 10 alike), and it is the multiplier that a
    successful calculation reports for its number of children. *)
Theorem child_count_multiplier_by_count :
  select_multiplier 1 = inr 1.065%float /\
  select_multiplier 2 = inr 1.0%float /\
  (forall n, (3 <= n)%nat -> select_multiplier n = inr 0.783%float) /\
  (select_multiplier 3 = select_multiplier 4 /\
   select_multiplier 4 = select_multiplier 10) /\
  (forall inputs r,
      calculate_child_support inputs = inr r ->
      select_multiplier (List.length (children inputs))
        = inr (child_count_multiplier r)) /\
  (forall inputs1 inputs2 r1 r2,
      calculate_child_support inputs1 = inr r1 ->
      calculate_child_support inputs2 = inr r2 ->
      List.length (children inputs1) = List.length (children inputs2) ->
      child_count_multiplier r1 = child_count_multiplier r2).
Proof.
  assert (Hrun : forall inputs r,
             calculate_child_support inputs = inr r ->
             select_multiplier (List.length (children inputs))
               = inr (child_count_multiplier r)).
  { intros inputs r H. apply calculate_inv in H.
    destruct H as (_ & _ & _ & f & total & _ & _ & Hm & _). exact Hm. }
  repeat split; try reflexivity; try exact Hrun.
  - intros n Hn. destruct n as [|[|[|n]]]; try lia. reflexivity.
  - intros i1 i2 r1 r2 H1 H2 Hlen.
    apply Hrun in H1, H2. rewrite Hlen in H1. congruence.
Qed.

Lemma child_count_multiplier_by_count_witness :
  (3 <= 10)%nat /\ select_multiplier 10 = inr 0.783%float.
Proof.
  split; [lia|].
  destruct child_count_multiplier_by_count as (_ & _ & Hmany & _).
  apply Hmany. lia.
Defined.

(** C10. For every successful calculation the payment is the half-up
    rounding of the unrounded clamped adjusted total times the share,
    while the reported adjusted total is the half-up rounding of that same
    unrounded total on its own; so the payment can differ from the
    rounding of the reported total times the share: with an unrounded
    total of 1,252,000.9 and share 0.5 the payment is 626,000 although the
    reported total 1,252,001 times 0.5 rounds to 626,001. *)
Theorem payment_uses_unrounded_total :
  (forall inputs r,
      calculate_child_support inputs = inr r ->
      exists t,
        unrounded_adjusted_total inputs = inr t /\
        _safe_int (t * non_custodial_share r)%float
          = inr (non_custodial_payment_krw r) /\
        _safe_int t = inr (adjusted_total_krw r)) /\
  (exists r reported,
      calculate_child_support scenario_fraction = inr r /\
      unrounded_adjusted_total scenario_fraction = inr 1252000.9%float /\
      adjusted_total_krw r = 1252001 /\
      non_custodial_payment_krw r = 626000 /\
      float_of_int (adjusted_total_krw r) = inr reported /\
      _safe_int (reported * non_custodial_share r)%float = inr 626001 /\
      inr (non_custodial_payment_krw r)
        <> _safe_int (reported * non_custodial_share r)%float).
Proof.
  split.
  - intros inputs r H.
    destruct (calculate_unrounded _ _ H) as (t & Ht & _ & Hp & Hk).
    exists t. auto.
  - eexists. eexists. split; [vm_compute; reflexivity|].
    split; [vm_compute; reflexivity|].
    split; [reflexivity|]. split; [reflexivity|].
    split; [vm_compute; reflexivity|].
    split; [vm_compute; reflexivity|].
    vm_compute. discriminate.
Qed.

Lemma payment_uses_unrounded_total_witness :
  exists r t,
    calculate_child_support scenario_fraction = inr r /\
    unrounded_adjusted_total scenario_fraction = inr t /\
    _safe_int (t * non_custodial_share r)%float = inr 626000 /\
    _safe_int t = inr 1252001.
Proof.
  destruct payment_uses_unrounded_total as [Hall _].
  eexists. 
  assert (Hrun : calculate_child_support scenario_fraction = inr _)
    by (vm_compute; reflexivity).
  destruct (Hall scenario_fraction _ Hrun) as (t & Ht & Hp & Hk).
  exists t. split; [exact Hrun|]. split; [exact Ht|]. split; [exact Hp | exact Hk].
Defined.

(** ** Further properties of the lookup and of the pipeline *)

(** X1. The bracket index never decreases when the combined income
    increases. *)
Theorem income_bracket_index_monotone (c1 c2 : Z) :
  0 <= c1 -> c1 <= c2 ->
  exists i1 i2,
    Guideline2021.income_bracket_index c1 = inr i1 /\
    Guideline2021.income_bracket_index c2 = inr i2 /\
    (i1 <= i2)%nat.
Proof.
  intros H0 Hle.
  assert (H1 : 0 <= c1 / 10000) by (apply Z.div_pos; lia).
  assert (H2 : c1 / 10000 <= c2 / 10000) by (apply Z.div_le_mono; lia).
  unfold Guideline2021.income_bracket_index, INCOME_BRACKETS_MW.
  cbn [Guideline2021.income_bracket_loop]. rewrite !Z.geb_leb.
  generalize dependent (c2 / 10000). generalize dependent (c1 / 10000).
  intros mw1 H1 mw2 H2.
  split_leb; (eexists; eexists; split; [reflexivity|]; split; [reflexivity|]; lia).
Qed.

Lemma income_bracket_index_monotone_witness :
  0 <= 1990000 /\ 1990000 <= 2000000 /\
  exists i1 i2,
    Guideline2021.income_bracket_index 1990000 = inr i1 /\
    Guideline2021.income_bracket_index 2000000 = inr i2 /\
    (i1 <= i2)%nat.
Proof.
  split; [lia|]. split; [lia|].
  apply (income_bracket_index_monotone 1990000 2000000); lia.
Defined.

(** X2. The table has a cell for every supported age and every
    non-negative combined income, so the per-child loop succeeds on every
    list of children aged 0 to 18: it returns one cell per child, in
    order, and the sum of their averages. *)
Theorem standard_support_total (kids : list Child) (combined : Z) :
  Forall (fun k => 0 <= age k <= 18) kids -> 0 <= combined ->
  exists cells,
    standard_support kids combined [] 0 = inr (cells, sum_avg cells) /\
    List.length cells = List.length kids /\
    map (fun c => inr (age_label c)) cells
      = map (fun k => Guideline2021.age_label_for (age k)) kids.
Proof.
  intros Hages Hc.
  destruct (standard_support_defined kids combined Hages Hc [] 0)
    as (cells & H & Hlen & Hlab).
  exists cells. cbn in H. auto.
Qed.

Lemma standard_support_total_witness :
  Forall (fun k => 0 <= age k <= 18) [ mkChild 2; mkChild 15 ] /\
  0 <= 5000000 /\
  exists cells,
    standard_support [ mkChild 2; mkChild 15 ] 5000000 [] 0
      = inr (cells, sum_avg cells) /\
    List.length cells = 2%nat /\
    map (fun c => inr (age_label c)) cells
      = map (fun k => Guideline2021.age_label_for (age k))
            [ mkChild 2; mkChild 15 ].
Proof.
  assert (Hages : Forall (fun k => 0 <= age k <= 18) [ mkChild 2; mkChild 15 ])
    by (repeat constructor; cbn; lia).
  split; [exact Hages|]. split; [lia|].
  apply (standard_support_total [ mkChild 2; mkChild 15 ] 5000000 Hages); lia.
Defined.

(** X3. The audit list of a successful calculation records every adjustment
    of the request, in the order supplied. *)
Theorem applied_adjustments_in_order
    (inputs : CalculationInputs) (r : CalculationBreakdown) :
  calculate_child_support inputs = inr r ->
  map applied_fields (applied_adjustments r) = adj_of inputs.
Proof.
  intros H. apply calculate_inv in H.
  destruct H as (_ & _ & _ & f & total & _ & _ & _ & _ & Hadj & _).
  apply apply_adjustments_records in Hadj. exact Hadj.
Qed.

Lemma applied_adjustments_in_order_witness :
  exists r,
    calculate_child_support scenario_zero_income = inr r /\
    map applied_fields (applied_adjustments r) = adj_of scenario_zero_income.
Proof.
  eexists. split; [vm_compute; reflexivity|].
  apply (applied_adjustments_in_order scenario_zero_income).
  vm_compute. reflexivity.
Defined.

(** X4. Scenario B: two children aged 2 and 15 with the incomes of scenario
    A; the standard total is the sum of two cells of the same income
    bracket, the multiplier is the baseline 1.0 and the payment is the
    rounding of 2,849,000 * 0.6.  Scenario C (no child) fails with the
    empty-children error and scenario D (a negative income, nothing
    imputed) with the negative-income error. *)
Theorem scenarios_B_C_D :
  (exists r,
      calculate_child_support scenario_B = inr r /\
      map age_label (standard_children_cells r) = [ "0~2세"; "15~18세" ] /\
      map income_bracket_mw (standard_children_cells r)
        = [ (500, Some 599); (500, Some 599) ] /\
      standard_total_krw r = 1245000 + 1604000 /\
      child_count_multiplier r = 1.0%float /\
      adjusted_total_krw r = 2849000 /\
      non_custodial_payment_krw r = 1709400) /\
  calculate_child_support scenario_C = inl EmptyChildrenError /\
  calculate_child_support scenario_D = inl NegativeIncomeError.
Proof.
  split; [|split; reflexivity].
  eexists. split; [vm_compute; reflexivity|].
  repeat split; reflexivity.
Qed.

(** ** More exact arithmetic *)

(** A canonical mantissa followed by [d] zero bits rounds to itself,
    whatever the sign. *)
Lemma binary_round_aux_canonical (s : bool) (N : positive) (d ex M : Z) :
  canonical_mantissa prec emax N (ex + d) = true ->
  ex + d <= 971 -> 0 <= d -> M = 2 ^ d * Zpos N ->
  binary_round_aux prec emax s M ex loc_Exact = S754_finite s N (ex + d).
Proof.
  intros Hcanon Hmax Hd HM.
  unfold canonical_mantissa in Hcanon. apply Z.eqb_eq in Hcanon.
  rewrite digits2_pos_log2 in Hcanon.
  assert (Hpow : 0 < 2 ^ d) by (apply Z.pow_pos_nonneg; lia).
  assert (HMpos : 0 < M) by nia.
  destruct M as [|Mp|]; try lia.
  assert (Hdig : Zdigits2 (Zpos Mp) = Z.log2 (Zpos N) + 1 + d).
  { cbn [Zdigits2]. rewrite digits2_pos_log2, HM, Z.mul_comm.
    rewrite Z.log2_mul_pow2 by lia. lia. }
  assert (HdigN : Zdigits2 (Zpos N) = Z.log2 (Zpos N) + 1).
  { cbn [Zdigits2]. apply digits2_pos_log2. }
  assert (Hshr1 : shr_fexp prec emax (Zpos Mp) ex loc_Exact
                  = (Build_shr_record (Zpos N) false false, ex + d)).
  { unfold shr_fexp. rewrite Hdig.
    replace (Z.log2 (Zpos N) + 1 + d + ex) with (Z.log2 (Zpos N) + 1 + (ex + d))
      by lia.
    rewrite Hcanon.
    replace (ex + d - ex) with d by lia.
    unfold shr, shr_record_of_loc. destruct d as [|p|]; try lia.
    - f_equal; [|lia]. f_equal. rewrite HM. cbn. reflexivity.
    - rewrite HM, iter_pos_shr_exact by lia. reflexivity. }
  assert (Hshr2 : shr_fexp prec emax (Zpos N) (ex + d) loc_Exact
                  = (Build_shr_record (Zpos N) false false, ex + d)).
  { unfold shr_fexp. rewrite HdigN, Hcanon, Z.sub_diag. reflexivity. }
  unfold binary_round_aux. rewrite Hshr1.
  cbn [shr_m loc_of_shr_record round_nearest_even]. rewrite Hshr2.
  cbn [shr_m].
  replace (ex + d <=? emax - prec) with true; [reflexivity|].
  symmetry. apply Z.leb_le. unfold emax, prec. lia.
Qed.

Lemma Prim2SF_one : Prim2SF 1 = S754_finite false 4503599627370496 (-52).
Proof. reflexivity. Qed.

(** Multiplying by 1.0 changes no double. *)
Lemma mul_one_r (x : float) : (x * 1)%float = x.
Proof.
  apply Prim2SF_inj. rewrite FloatAxioms.mul_spec, Prim2SF_one.
  pose proof (Prim2SF_valid x) as Hvalid.
  destruct (Prim2SF x) as [s|s| |s m e]; cbn -[binary_round_aux];
    try (destruct s; reflexivity); try reflexivity.
  cbn [valid_binary] in Hvalid. unfold bounded in Hvalid.
  apply andb_true_iff in Hvalid. destruct Hvalid as [Hcanon Hemax].
  apply Z.leb_le in Hemax. unfold emax, prec in Hemax.
  rewrite xorb_false_r.
  replace (S754_finite s m e) with (S754_finite s m (e + -52 + 52))
    by (f_equal; lia).
  apply binary_round_aux_canonical.
  - replace (e + -52 + 52) with e by lia. exact Hcanon.
  - lia.
  - lia.
  - rewrite Pos2Z.inj_mul. change (Zpos 4503599627370496) with (2 ^ 52). ring.
Qed.

Lemma div_eucl_exact (p : positive) (k : Z) :
  0 <= k -> Z.div_eucl (Z.shiftl (Zpos p) k) (Zpos p) = (2 ^ k, 0).
Proof.
  intros Hk. rewrite Z.shiftl_mul_pow2 by lia.
  pose proof (Z.div_eucl_eq (Zpos p * 2 ^ k) (Zpos p) ltac:(lia)) as Heq.
  pose proof (Z.mod_pos_bound (Zpos p * 2 ^ k) (Zpos p) ltac:(lia)) as Hb.
  unfold Z.modulo in Hb.
  destruct (Z.div_eucl (Zpos p * 2 ^ k) (Zpos p)) as [q r].
  assert (r = 0 /\ q = 2 ^ k) as [-> ->]; [|reflexivity].
  assert (Hr : Zpos p * (2 ^ k - q) = r) by lia.
  assert (2 ^ k - q = 0) by nia. split; nia.
Qed.

(** An integer divided by itself is exactly 1.0, whatever its size. *)
Lemma int_true_div_self (a : Z) : 0 < a -> int_true_div a a = inr 1%float.
Proof.
  intros Ha. destruct a as [|p|p]; try lia.
  unfold int_true_div. cbn [Z.eqb raw_of_int].
  unfold SFdiv, SFdiv_core_binary.
  replace (Z.min (fexp prec emax (Zdigits2 (Zpos p) + 0 - (Zdigits2 (Zpos p) + 0)))
                 (0 - 0)) with (-53)
    by (replace (Zdigits2 (Zpos p) + 0 - (Zdigits2 (Zpos p) + 0)) with 0 by lia;
        reflexivity).
  change (0 - 0 - -53) with 53. cbv iota beta zeta.
  change (IntDef.Z.div_eucl (IntDef.Z.shiftl (Zpos p) 53) (Zpos p))
    with (Z.div_eucl (Z.shiftl (Zpos p) 53) (Zpos p)).
  rewrite (div_eucl_exact p 53) by lia.
  change (2 ^ 53) with (Zpos 9007199254740992).
  cbn [xorb].
  replace (new_location (Zpos p) 0) with loc_Exact
    by (unfold new_location, new_location_even, new_location_odd;
        destruct (Z.even (Zpos p)); reflexivity).
  rewrite (binary_round_aux_canonical false 4503599627370496 1 (-53));
    try reflexivity; try lia.
Qed.

Lemma int_true_div_zero (b : Z) : 0 < b -> int_true_div 0 b = inr 0%float.
Proof.
  intros Hb. destruct b as [|p|p]; try lia. reflexivity.
Qed.

(** The conversion of a positive integer below 2^52 is that integer. *)
Lemma float_of_int_exact (z : Z) :
  0 < z < 2 ^ 52 ->
  exists f, float_of_int z = inr f /\ is_integer_double f z.
Proof.
  intros [Hpos Hlt]. destruct z as [|p|p]; try lia.
  pose proof (Z.log2_nonneg (Zpos p)) as Hl0.
  assert (Hl : Z.log2 (Zpos p) < 52) by (apply Z.log2_lt_pow2; lia).
  unfold float_of_int, binary_normalize, binary_round.
  rewrite digits2_pos_log2.
  replace (fexp prec emax (Z.log2 (Zpos p) + 1 + 0)) with (Z.log2 (Zpos p) - 52)
    by (unfold fexp, SpecFloat.emin, prec, emax; lia).
  pose proof (shl_align_value p 0 (Z.log2 (Zpos p) - 52) ltac:(lia)) as Hv.
  pose proof (shl_align_snd p 0 (Z.log2 (Zpos p) - 52) ltac:(lia)) as Hs.
  destruct (shl_align p 0 (Z.log2 (Zpos p) - 52)) as [mz ez].
  cbn [fst snd] in Hv, Hs. subst ez.
  assert (Hlog : Z.log2 (Zpos mz) = 52)
    by (rewrite Hv, Z.log2_mul_pow2 by lia; lia).
  assert (Hround : binary_round_aux prec emax false (Zpos mz)
                     (Z.log2 (Zpos p) - 52) loc_Exact
                   = S754_finite false mz (Z.log2 (Zpos p) - 52 + 0))
    by (apply binary_round_aux_exact; [exact Hlog | lia | cbn; lia | lia]).
  rewrite Hround, Z.add_0_r. eexists. split; [reflexivity|].
  exists mz, (Z.log2 (Zpos p) - 52). split; [|split; [lia|]].
  - apply Prim2SF_SF2Prim. cbn [valid_binary]. unfold bounded, canonical_mantissa.
    apply andb_true_iff. split.
    + apply Z.eqb_eq. rewrite digits2_pos_log2, Hlog.
      unfold fexp, SpecFloat.emin, prec, emax. lia.
    + apply Z.leb_le. unfold prec, emax. lia.
  - rewrite Hv. now rewrite Z.sub_0_l.
Qed.

(** Rounding an integer-valued double half-up gives the integer back. *)
Lemma safe_int_integer (y : float) (z : Z) :
  is_integer_double y z -> _safe_int y = inr z.
Proof.
  intros (m & e & Hy & He & Hval).
  pose proof (Prim2SF_valid y) as Hvalid. rewrite Hy in Hvalid.
  cbn [valid_binary] in Hvalid. unfold bounded, canonical_mantissa in Hvalid.
  apply andb_true_iff in Hvalid. destruct Hvalid as [Hcanon Hemax].
  apply Z.eqb_eq in Hcanon. rewrite digits2_pos_log2 in Hcanon.
  unfold fexp, SpecFloat.emin, prec, emax in Hcanon.
  pose proof (Z.log2_spec (Zpos m) ltac:(lia)) as [Hlo Hhi].
  pose proof (Z.log2_nonneg (Zpos m)) as Hlog.
  assert (Hpe : 0 < 2 ^ (- e)) by (apply Z.pow_pos_nonneg; lia).
  assert (Hz : 0 < z) by nia.
  assert (Hge : 2 ^ (- e) <= Zpos m) by nia.
  assert (Hlt : 2 ^ (- e) < 2 ^ (Z.log2 (Zpos m) + 1)).
  { replace (Z.log2 (Zpos m) + 1) with (Z.succ (Z.log2 (Zpos m))) by lia. lia. }
  apply pow2_lt_exp in Hlt; try lia.
  assert (HL : Z.log2 (Zpos m) = 52) by lia.
  assert (Hebound : -52 <= e) by lia.
  rewrite HL in *. clear Hcanon Hlog.
  set (k := e + 53).
  assert (H53 : 2 ^ 53 = 2 ^ k * 2 ^ (- e))
    by (rewrite <- Z.pow_add_r by lia; f_equal; lia).
  assert (Hpk : 0 < 2 ^ k) by (apply Z.pow_pos_nonneg; lia).
  assert (Hmk : Zpos m * 2 ^ k = z * 2 ^ 53) by (rewrite H53, Hval; ring).
  assert (Hz52 : 2 * z + 1 < 2 ^ 53).
  { change (Z.succ 52) with 53 in Hhi.
    assert (2 <= 2 ^ (- e)).
    { change 2 with (2 ^ 1) at 1. apply Z.pow_le_mono_r; lia. }
    assert (2 * z < 2 ^ 53) by nia.
    change (2 ^ 53) with 9007199254740992 in *. lia. }
  set (lw := Z.log2 (2 * z + 1)).
  pose proof (Z.log2_nonneg (2 * z + 1)) as Hlw0. fold lw in Hlw0.
  assert (Hlw : lw < 53) by (apply Z.log2_lt_pow2; lia).
  assert (Hlw1 : 1 <= lw).
  { change 1 with (Z.log2 2). apply Z.log2_le_mono. lia. }
  set (N := Z.to_pos ((2 * z + 1) * 2 ^ (52 - lw))).
  assert (Hp2 : 0 < 2 ^ (52 - lw)) by (apply Z.pow_pos_nonneg; lia).
  assert (HN : Zpos N = (2 * z + 1) * 2 ^ (52 - lw))
    by (unfold N; rewrite Z2Pos.id; nia).
  assert (HNlog : Z.log2 (Zpos N) = 52).
  { rewrite HN, Z.log2_mul_pow2 by lia. fold lw. lia. }
  unfold _safe_int, floor_int.
  rewrite FloatAxioms.add_spec, Hy, Prim2SF_half.
  unfold SF64add, SFadd.
  replace (Z.min e (-53)) with (-53) by lia.
  cbn [cond_Zopp].
  pose proof (shl_align_value m e (-53) ltac:(lia)) as Ha.
  pose proof (shl_align_value 4503599627370496 (-53) (-53) ltac:(lia)) as Hb.
  replace (e - -53) with k in Ha by (unfold k; lia).
  change (-53 - -53) with 0 in Hb. rewrite Z.pow_0_r, Z.mul_1_r in Hb.
  set (S := Zpos (fst (shl_align m e (-53)))
            + Zpos (fst (shl_align 4503599627370496 (-53) (-53)))).
  assert (HS : S = 2 ^ lw * Zpos N).
  { unfold S. rewrite Ha, Hb, Hmk, HN.
    change (Zpos 4503599627370496) with (2 ^ 52).
    replace (z * 2 ^ 53 + 2 ^ 52) with ((2 * z + 1) * 2 ^ 52)
      by (change (2 ^ 53) with (2 * 2 ^ 52); ring).
    replace (2 ^ 52) with (2 ^ lw * 2 ^ (52 - lw)) at 1
      by (rewrite <- Z.pow_add_r by lia; f_equal; lia).
    ring. }
  clearbody S.
  assert (Hp3 : 0 < 2 ^ lw) by (apply Z.pow_pos_nonneg; lia).
  destruct S as [|Sp|Sp]; try lia.
  unfold binary_normalize, binary_round.
  assert (Hdig : Zpos (digits2_pos Sp) = lw + 53).
  { rewrite digits2_pos_log2, HS, Z.mul_comm.
    rewrite Z.log2_mul_pow2 by lia. lia. }
  rewrite Hdig.
  replace (fexp prec emax (lw + 53 + -53)) with (lw + -53)
    by (unfold fexp, SpecFloat.emin, prec, emax; lia).
  unfold shl_align at 1.
  replace (lw + -53 - -53) with lw by lia.
  destruct lw as [|d|d] eqn:Hd; try lia.
  rewrite (binary_round_aux_exact N (Zpos d) (-53) (Zpos Sp)); try lia;
    try assumption.
  cbn [cond_Zopp]. unfold ret. f_equal.
  rewrite Z.shiftl_div_pow2 by lia.
  replace (- (-53 + Zpos d)) with (53 - Zpos d) by lia.
  rewrite HN.
  replace (53 - Zpos d) with (Z.succ (52 - Zpos d)) by lia.
  rewrite Z.pow_succ_r by lia.
  rewrite Z.div_mul_cancel_r by lia.
  symmetry. apply (Z.div_unique (2 * z + 1) 2 z 1); lia.
Qed.

Lemma max_zero_integer (y : float) (z : Z) :
  is_integer_double y z -> max_zero y = y.
Proof.
  intros (m & e & Hy & _). unfold max_zero.
  rewrite FloatAxioms.ltb_spec, Prim2SF_zero, Hy. reflexivity.
Qed.

Lemma zero_mul_safe_int (share : float) (p : Z) :
  _safe_int (0 * share) = inr p -> p = 0.
Proof.
  intros H.
  assert (Hcases : (0 * share)%float = 0%float \/ (0 * share)%float = (-0)%float
                   \/ (0 * share)%float = nan).
  { assert (Hsf : Prim2SF (0 * share) = S754_zero false \/
                  Prim2SF (0 * share) = S754_zero true \/
                  Prim2SF (0 * share) = S754_nan).
    { rewrite FloatAxioms.mul_spec, Prim2SF_zero.
      destruct (Prim2SF share) as [s|s| |s m e]; cbn;
        [destruct s | | | destruct s]; auto. }
    destruct Hsf as [E|[E|E]]; [left | right; left | right; right];
      apply Prim2SF_inj; rewrite E; reflexivity. }
  destruct Hcases as [E|[E|E]]; rewrite E in H; vm_compute in H;
    congruence.
Qed.

Lemma max_zero_zero_or_positive (t : float) :
  max_zero t = 0%float \/ (0 <? max_zero t)%float = true.
Proof.
  unfold max_zero. destruct (0 <? t)%float eqn:E; [right; exact E | left; reflexivity].
Qed.

(** ** Cells *)

Ltac split_ifs H :=
  repeat match type of H with
         | context [if ?b then _ else _] => destruct b eqn:?
         end.

(** What a cell holds, read off a successful lookup. *)
Lemma cell_inv (a c : Z) (cl : ChildCell) :
  Guideline2021.cell a c = inr cl ->
  0 <= a <= 18 /\ 0 <= c /\
  Guideline2021.age_label_for a = inr (age_label cl) /\
  (exists idx,
      Guideline2021.income_bracket_index c = inr idx /\
      nth_error INCOME_BRACKETS_MW idx = Some (income_bracket_mw cl)) /\
  low_krw cl <= avg_krw cl /\
  match high_krw cl with
  | Some h => avg_krw cl <= h /\ snd (income_bracket_mw cl) <> None
  | None => income_bracket_mw cl = (1200, None)
  end.
Proof.
  intros H.
  assert (Ha : 0 <= a <= 18).
  { unfold Guideline2021.cell, Guideline2021.age_label_for, AGE_BRACKETS in H.
    cbn [Guideline2021.age_label_loop] in H.
    destruct (Z_lt_le_dec a 0); [|destruct (Z_lt_le_dec 18 a); [|lia]];
      exfalso; revert H; split_leb; discriminate. }
  assert (Hc : 0 <= c).
  { destruct (Z_lt_le_dec c 0) as [Hneg|]; [|assumption]. exfalso.
    assert (Hmw : c / 10000 < 0) by (apply Z.div_lt_upper_bound; lia).
    unfold Guideline2021.cell in H.
    destruct (Guideline2021.age_label_for a); [discriminate H|].
    cbn [bind] in H.
    unfold Guideline2021.income_bracket_index, INCOME_BRACKETS_MW in H.
    cbn [Guideline2021.income_bracket_loop] in H. rewrite !Z.geb_leb in H.
    revert H. generalize dependent (c / 10000). intros mw Hmw.
    split_leb; discriminate. }
  destruct (cell_defined a c Ha Hc)
    as (cl' & row & entry & idx & Hcell & Hlabel & Hidx & Hrow & Hentry & Hbr
        & Havg & Hlow & Hhigh & _).
  rewrite Hcell in H. injection H as <-.
  split; [exact Ha|]. split; [exact Hc|]. split; [exact Hlabel|].
  split; [exists idx; auto|].
  clear Hcell.
  unfold Guideline2021.age_label_for, AGE_BRACKETS in Hlabel.
  cbn [Guideline2021.age_label_loop] in Hlabel.
  unfold Guideline2021.income_bracket_index, INCOME_BRACKETS_MW in Hidx.
  cbn [Guideline2021.income_bracket_loop] in Hidx. rewrite !Z.geb_leb in Hidx.
  rewrite Havg, Hlow, Hhigh.
  split_ifs Hlabel; try discriminate Hlabel; injection Hlabel as Hl;
    rewrite <- Hl in Hrow; cbn in Hrow; injection Hrow as <-;
    split_ifs Hidx; try discriminate Hidx; injection Hidx as <-;
    cbn in Hentry; injection Hentry as <-;
    cbn in Hbr; injection Hbr as <-; cbn; (split; [lia|]);
    first [reflexivity | split; [lia | discriminate]].
Qed.

Ltac unfold_cell :=
  unfold Guideline2021.cell, Guideline2021.age_label_for,
    Guideline2021.income_bracket_index, AGE_BRACKETS, INCOME_BRACKETS_MW;
  cbn [Guideline2021.age_label_loop Guideline2021.income_bracket_loop];
  rewrite !Z.geb_leb.

Ltac close_cells :=
  cbn;
  repeat match goal with
         | |- _ = inr _ -> _ =>
             let H := fresh in
             intros H; first [discriminate H | injection H as <-]
         end;
  cbn; lia.

(** At a given age the amounts do not decrease when the combined income
    increases. *)
Lemma cell_monotone_income (a c1 c2 : Z) (cl1 cl2 : ChildCell) :
  c1 <= c2 ->
  Guideline2021.cell a c1 = inr cl1 -> Guideline2021.cell a c2 = inr cl2 ->
  avg_krw cl1 <= avg_krw cl2 /\ low_krw cl1 <= low_krw cl2.
Proof.
  intros Hle.
  assert (Hmw : c1 / 10000 <= c2 / 10000) by (apply Z.div_le_mono; lia).
  unfold_cell.
  generalize dependent (c2 / 10000). generalize dependent (c1 / 10000).
  intros mw1 mw2 Hmw.
  split_leb; close_cells.
Qed.

(** In a given income bracket the amounts do not decrease with the age of
    the child. *)
Lemma cell_monotone_age (a1 a2 c : Z) (cl1 cl2 : ChildCell) :
  a1 <= a2 ->
  Guideline2021.cell a1 c = inr cl1 -> Guideline2021.cell a2 c = inr cl2 ->
  avg_krw cl1 <= avg_krw cl2 /\ low_krw cl1 <= low_krw cl2.
Proof.
  intros Hle. unfold_cell.
  generalize dependent (c / 10000). intros mw.
  split_leb; close_cells.
Qed.

Lemma cell_error (a c : Z) (e : PyError) :
  0 <= c -> Guideline2021.cell a c = inl e ->
  e = OutOfRangeError a /\ (a < 0 \/ 18 < a).
Proof.
  intros Hc H.
  destruct (Z_lt_le_dec a 0) as [Hlo|Hlo];
    [|destruct (Z_lt_le_dec 18 a) as [Hhi|Hhi]].
  - split; [|lia]. revert H. unfold_cell.
    split_leb; cbn; intros E; now injection E as <-.
  - split; [|lia]. revert H. unfold_cell.
    split_leb; cbn; intros E; now injection E as <-.
  - destruct (cell_defined a c ltac:(lia) Hc) as (cl & _ & _ & _ & Hcell & _).
    congruence.
Qed.

(** ** The per-child loop as a map *)

Lemma standard_support_spec (kids : list Child) (combined : Z) :
  forall acc total cells total',
    standard_support kids combined acc total = inr (cells, total') <->
    exists new, cells_of combined kids new /\
                cells = acc ++ new /\ total' = total + sum_avg new.
Proof.
  unfold cells_of.
  induction kids as [|k kids IH]; intros acc total cells total'.
  - cbn. split.
    + intros H. injection H as <- <-. exists []. rewrite app_nil_r.
      cbn. split; [constructor|]. split; [reflexivity | lia].
    + intros (new & Hall & -> & ->). inversion Hall; subst.
      rewrite app_nil_r. cbn. rewrite Z.add_0_r. reflexivity.
  - cbn [standard_support]. split.
    + intros H.
      destruct (Guideline2021.cell (age k) combined) as [e|cl] eqn:Hcell;
        [discriminate H|].
      cbn [bind] in H. apply IH in H. destruct H as (new & Hall & -> & ->).
      exists (cl :: new). split; [constructor; assumption|].
      rewrite <- app_assoc. split; [reflexivity|].
      unfold sum_avg. cbn [fold_right]. lia.
    + intros (new & Hall & -> & ->). inversion Hall as [|? cl ? rest Hcell Hrest];
        subst.
      rewrite Hcell. cbn [bind]. apply IH. exists rest.
      split; [assumption|]. rewrite <- app_assoc. split; [reflexivity|].
      unfold sum_avg. cbn [fold_right]. lia.
Qed.

Lemma sum_avg_permutation (xs ys : list ChildCell) :
  Permutation xs ys -> sum_avg xs = sum_avg ys.
Proof.
  unfold sum_avg. induction 1; cbn [fold_right]; lia.
Qed.

Lemma cells_of_permutation (combined : Z) (kids1 kids2 : list Child)
    (cells1 : list ChildCell) :
  Permutation kids1 kids2 -> cells_of combined kids1 cells1 ->
  exists cells2, cells_of combined kids2 cells2 /\ Permutation cells1 cells2.
Proof.
  unfold cells_of. intros Hperm. revert cells1.
  induction Hperm as [|k l l' Hp IH|k k' l|l l' l'' Hp1 IH1 Hp2 IH2];
    intros cells1 Hall.
  - inversion Hall; subst. exists []. split; constructor.
  - inversion Hall as [|? cl ? rest Hk Hrest]; subst.
    destruct (IH rest Hrest) as (cells2 & Hall2 & Hperm2).
    exists (cl :: cells2). split; constructor; assumption.
  - inversion Hall as [|? cl' ? rest' Hk' Hrest']; subst.
    inversion Hrest' as [|? cl ? rest Hk Hrest]; subst.
    exists (cl :: cl' :: rest). split.
    + repeat constructor; assumption.
    + constructor.
  - destruct (IH1 _ Hall) as (c2 & Hall2 & Hperm2).
    destruct (IH2 _ Hall2) as (c3 & Hall3 & Hperm3).
    exists c3. split; [assumption|]. eapply Permutation_trans; eassumption.
Qed.

Lemma cells_of_monotone (c1 c2 : Z) (kids1 kids2 : list Child)
    (cells1 cells2 : list ChildCell) :
  c1 <= c2 ->
  Forall2 (fun k1 k2 => age k1 <= age k2) kids1 kids2 ->
  cells_of c1 kids1 cells1 -> cells_of c2 kids2 cells2 ->
  sum_avg cells1 <= sum_avg cells2.
Proof.
  unfold cells_of. intros Hc Hages. revert cells1 cells2.
  induction Hages as [|k1 k2 l1 l2 Hk Hl IH]; intros cells1 cells2 H1 H2.
  - inversion H1; inversion H2; subst. lia.
  - inversion H1 as [|? cl1 ? r1 Hc1 Hr1]; subst.
    inversion H2 as [|? cl2 ? r2 Hc2 Hr2]; subst.
    specialize (IH _ _ Hr1 Hr2).
    destruct (cell_inv _ _ _ Hc2) as (Ha2 & Hc2' & _).
    destruct (cell_inv _ _ _ Hc1) as (Ha1 & Hc1' & _).
    destruct (cell_defined (age k1) c2 Ha1 Hc2')
      as (mid & _ & _ & _ & Hmid & _).
    destruct (cell_monotone_income _ _ _ _ _ Hc Hc1 Hmid) as [Hi _].
    destruct (cell_monotone_age _ _ _ _ _ Hk Hmid Hc2) as [Ha _].
    unfold sum_avg in *. cbn [fold_right]. lia.
Qed.

Lemma standard_support_error (kids : list Child) (combined : Z) :
  0 <= combined ->
  forall acc total e,
    standard_support kids combined acc total = inl e ->
    exists before k after,
      kids = before ++ k :: after /\
      Forall (fun k' => 0 <= age k' <= 18) before /\
      (age k < 0 \/ 18 < age k) /\ e = OutOfRangeError (age k).
Proof.
  intros Hc. induction kids as [|k kids IH]; intros acc total e H;
    [discriminate H|].
  cbn [standard_support] in H.
  destruct (Guideline2021.cell (age k) combined) as [e'|cl] eqn:Hcell.
  - cbn in H. injection H as <-.
    destruct (cell_error _ _ _ Hc Hcell) as [-> Hout].
    exists [], k, kids. auto.
  - cbn [bind] in H. destruct (IH _ _ _ H) as (b & k' & a & -> & Hb & Hout & ->).
    destruct (cell_inv _ _ _ Hcell) as (Hk & _).
    exists (k :: b), k', a. auto.
Qed.

Lemma standard_support_first_error
    (before after : list Child) (k : Child) (combined : Z) :
  0 <= combined ->
  Forall (fun k' => 0 <= age k' <= 18) before ->
  age k < 0 \/ 18 < age k ->
  forall acc total,
    standard_support (before ++ k :: after) combined acc total
      = inl (OutOfRangeError (age k)).
Proof.
  intros H0 Hbf Hout.
  induction Hbf as [|k0 bf Hk0 Hbf IH]; intros acc tot;
    cbn [app standard_support].
  - destruct (Guideline2021.cell (age k) combined) as [e|cl] eqn:Hcell.
    + destruct (cell_error _ _ _ H0 Hcell) as [-> _]. reflexivity.
    + destruct (cell_inv _ _ _ Hcell) as (Hk & _). lia.
  - destruct (cell_defined (age k0) combined Hk0 H0)
      as (cl & _ & _ & _ & Hcell & _).
    rewrite Hcell. cbn [bind]. apply IH.
Qed.

(** ** Failures of the stages *)

Lemma safe_int_error (x : float) (e : PyError) :
  _safe_int x = inl e -> e = FloatNaNToIntError \/ e = FloatInfToIntError.
Proof.
  unfold _safe_int, floor_int.
  destruct (Prim2SF (x + 0.5)); cbn; intros H; try discriminate H;
    injection H as <-; auto.
Qed.

Lemma share_of_error (a b : Z) (e : PyError) :
  share_of a b = inl e -> e = IntTooLargeForFloatError.
Proof.
  unfold share_of, int_true_div. destruct (b =? 0); [discriminate|].
  destruct (SFdiv prec emax (raw_of_int a) (raw_of_int b)); cbn; intros H;
    try discriminate H. now injection H as <-.
Qed.

Lemma float_of_int_error (z : Z) (e : PyError) :
  float_of_int z = inl e -> e = IntTooLargeForFloatError.
Proof.
  unfold float_of_int.
  destruct (binary_normalize prec emax z 0 false); cbn; intros H;
    try discriminate H. now injection H as <-.
Qed.

Lemma select_multiplier_defined (n : nat) : exists m, select_multiplier n = inr m.
Proof. destruct n as [|[|[|n]]]; eexists; reflexivity. Qed.

Lemma calculate_error_cause (inputs : CalculationInputs) (e : PyError) :
  calculate_child_support inputs = inl e -> error_cause inputs e.
Proof.
  intros H. unfold calculate_child_support in H.
  destruct (children inputs) as [|c0 kids] eqn:Hkids.
  { injection H as <-. exact Hkids. }
  rewrite <- Hkids in *.
  assert (Hne : children inputs <> []) by (rewrite Hkids; discriminate).
  destruct ((cust_income_of inputs <? 0) || (noncust_income_of inputs <? 0))
    eqn:Hneg.
  { injection H as <-. cbn. split; [exact Hne|].
    apply orb_true_iff in Hneg. rewrite !Z.ltb_lt in Hneg. exact Hneg. }
  apply orb_false_elim in Hneg. destruct Hneg as [Hc Hn].
  apply Z.ltb_ge in Hc, Hn.
  assert (H0 : 0 <= combined_of inputs) by (unfold combined_of; lia).
  assert (Hmw : 0 <= combined_of inputs / 10000) by (apply Z.div_pos; lia).
  destruct (income_bracket_loop_spec _ Hmw) as (idx & b & Hloop & _).
  unfold Guideline2021.income_bracket_index in H. rewrite Hloop in H.
  cbn [bind] in H.
  destruct (standard_support _ _ _ _) as [e1|[cells st]] eqn:Hstd.
  { cbn in H. injection H as <-.
    destruct (standard_support_error _ _ H0 _ _ _ Hstd)
      as (bf & k & af & Hsplit & Hbf & Hout & ->).
    cbn. exists bf, k, af. auto. }
  cbn [bind] in H.
  destruct (select_multiplier_defined (List.length (children inputs))) as [m Hm].
  rewrite Hm in H. cbn [bind] in H.
  destruct (float_of_int st) as [e1|stf] eqn:Hf.
  { cbn in H. injection H as <-. now rewrite (float_of_int_error _ _ Hf). }
  cbn [bind] in H.
  destruct (apply_adjustments _ _ _) as [e1|[total applied]] eqn:Hadj.
  { cbn in H. injection H as <-.
    destruct (apply_adjustments_error _ _ _ _ Hadj) as (a & Hin & Hbad & ->).
    cbn. exists a. auto. }
  cbn [bind] in H.
  destruct (share_of _ _) as [e1|share] eqn:Hs.
  { cbn in H. injection H as <-. now rewrite (share_of_error _ _ _ Hs). }
  cbn [bind] in H.
  destruct (_safe_int (max_zero total * share)) as [e1|pay] eqn:Hp.
  { cbn in H. injection H as <-.
    destruct (safe_int_error _ _ Hp) as [-> | ->]; exact I. }
  cbn [bind] in H.
  destruct (_safe_int (max_zero total)) as [e1|krw] eqn:Hk.
  { cbn in H. injection H as <-.
    destruct (safe_int_error _ _ Hk) as [-> | ->]; exact I. }
  discriminate H.
Qed.

(** ** Recorded effects *)

Lemma apply_adjustment_inv (t t' : float) (a : Adjustment) (record : AppliedAdjustment) :
  apply_adjustment t a = inr (t', record) ->
  recognized a = true /\
  record = mkApplied a (effect_of a) /\
  t' = replay_effect t (effect_of a).
Proof.
  unfold apply_adjustment, recognized, effect_of.
  destruct (type a =? "multiplier")%string;
    [destruct (is_percent a)|
     destruct (type a =? "add")%string;
       [|destruct (type a =? "subtract")%string]];
    intros H; try discriminate H; injection H as <- <-; auto.
Qed.

Lemma apply_adjustments_inv (adj : list Adjustment) :
  forall t acc t' acc',
    apply_adjustments adj t acc = inr (t', acc') ->
    forallb recognized adj = true /\
    acc' = acc ++ map (fun a => mkApplied a (effect_of a)) adj /\
    t' = fold_left replay_effect (map effect_of adj) t.
Proof.
  induction adj as [|a adj IH]; intros t acc t' acc' H.
  - injection H as <- <-. rewrite app_nil_r. auto.
  - cbn [apply_adjustments] in H.
    destruct (apply_adjustment t a) as [e|[t1 record]] eqn:Hstep;
      [discriminate H|].
    cbn [bind] in H.
    destruct (apply_adjustment_inv _ _ _ _ Hstep) as (Hrec & -> & ->).
    destruct (IH _ _ _ _ H) as (Hall & -> & ->).
    cbn [forallb map fold_left]. rewrite Hrec, Hall, <- app_assoc.
    auto.
Qed.

Lemma apply_adjustments_intro (adj : list Adjustment) :
  forallb recognized adj = true ->
  forall t acc,
    apply_adjustments adj t acc =
    inr (fold_left replay_effect (map effect_of adj) t,
         acc ++ map (fun a => mkApplied a (effect_of a)) adj).
Proof.
  intros Hall t acc.
  destruct (apply_adjustments_recognized adj Hall t acc) as [acc' H].
  destruct (apply_adjustments_inv _ _ _ _ _ H) as (_ & -> & E).
  rewrite H, E. reflexivity.
Qed.

Lemma neutral_effect (a : Adjustment) :
  neutral a -> recognized a = true /\ effect_of a = effective_multiplier 1.
Proof.
  intros (Hty & [[Hp Hv]|[Hp Hv]]); unfold recognized, effect_of;
    rewrite Hty, Hp, Hv; split; reflexivity.
Qed.

(** ** Properties of the lookups *)

(** X5. The cell lookup succeeds exactly for an age from 0 to 18 and a
    non-negative combined income: an age outside the range raises the
    out-of-range error whatever the income, and a negative income with a
    supported age raises the error of [income_bracket_index].  A cell
    carries the label of the age and the bracket that contains the income,
    its low amount is at most its average and its average at most its high
    amount (absent in the open-ended bracket only), and the average and
    low amounts never decrease when the age or the income increases. *)
Theorem cell_lookup_spec (a c : Z) :
  (0 <= a <= 18 -> 0 <= c -> exists cl, Guideline2021.cell a c = inr cl) /\
  (a < 0 \/ 18 < a -> Guideline2021.cell a c = inl (OutOfRangeError a)) /\
  (0 <= a <= 18 -> c < 0 ->
   Guideline2021.cell a c = inl (IncomeNotInBracketError c)) /\
  (forall cl,
      Guideline2021.cell a c = inr cl ->
      Guideline2021.age_label_for a = inr (age_label cl) /\
      in_income_bracket (income_bracket_mw cl) (c / 10000) /\
      low_krw cl <= avg_krw cl /\
      match high_krw cl with
      | Some h => avg_krw cl <= h
      | None => income_bracket_mw cl = (1200, None)
      end) /\
  (forall a' c' cl cl',
      a <= a' -> c <= c' ->
      Guideline2021.cell a c = inr cl -> Guideline2021.cell a' c' = inr cl' ->
      avg_krw cl <= avg_krw cl' /\ low_krw cl <= low_krw cl').
Proof.
  split; [|split; [|split; [|split]]].
  - intros Ha Hc.
    destruct (cell_defined a c Ha Hc) as (cl & _ & _ & _ & Hcell & _).
    exists cl. exact Hcell.
  - intros Hout. unfold_cell. generalize (c / 10000). intros mw.
    destruct Hout; split_leb; reflexivity.
  - intros Ha Hc.
    assert (Hmw : c / 10000 < 0) by (apply Z.div_lt_upper_bound; lia).
    unfold_cell. generalize dependent (c / 10000). intros mw Hmw.
    split_leb; reflexivity.
  - intros cl Hcell.
    destruct (cell_inv _ _ _ Hcell)
      as (_ & Hc & Hlabel & (idx & Hidx & Hnth) & Hlow & Hhigh).
    split; [exact Hlabel|]. split; [|split; [exact Hlow|]].
    + assert (Hmw : 0 <= c / 10000) by (apply Z.div_pos; lia).
      destruct (income_bracket_loop_spec _ Hmw) as (i & b & Hloop & Hb & Hin & _).
      unfold Guideline2021.income_bracket_index in Hidx. rewrite Hloop in Hidx.
      injection Hidx as <-. rewrite Hb in Hnth. injection Hnth as <-. exact Hin.
    + destruct (high_krw cl); tauto.
  - intros a' c' cl cl' Ha Hc Hcell Hcell'.
    destruct (cell_inv _ _ _ Hcell) as (Ha0 & Hc0 & _).
    destruct (cell_inv _ _ _ Hcell') as (Ha1 & Hc1 & _).
    destruct (cell_defined a c' Ha0 Hc1) as (mid & _ & _ & _ & Hmid & _).
    destruct (cell_monotone_income _ _ _ _ _ Hc Hcell Hmid).
    destruct (cell_monotone_age _ _ _ _ _ Ha Hmid Hcell'). lia.
Qed.

Lemma cell_lookup_spec_witness :
  0 <= 8 <= 18 /\ 0 <= 5000000 /\
  exists cl, Guideline2021.cell 8 5000000 = inr cl.
Proof.
  split; [lia|]. split; [lia|].
  destruct (cell_lookup_spec 8 5000000) as [Hdef _]. apply Hdef; lia.
Defined.

(** X6. The half of the minimum support is defined exactly for the ages
    0 to 18 (the out-of-range error otherwise): it is half, rounded down,
    of the low amount of the age's cell in the lowest income bracket,
    lies between 132,000 and 159,500, is at most half of the low amount of
    every cell of that age, and never decreases with the age. *)
Theorem minimum_support_half_spec (a : Z) :
  (0 <= a <= 18 ->
   exists h cl,
     Guideline2021.minimum_support_half a = inr h /\
     Guideline2021.cell a 0 = inr cl /\
     h = low_krw cl / 2 /\
     132000 <= h <= 159500 /\
     (forall c cl', Guideline2021.cell a c = inr cl' -> 2 * h <= low_krw cl') /\
     (forall a' h', a <= a' ->
                    Guideline2021.minimum_support_half a' = inr h' -> h <= h')) /\
  (a < 0 \/ 18 < a <->
   Guideline2021.minimum_support_half a = inl (OutOfRangeError a)).
Proof.
  split.
  - intros Ha.
    destruct (cell_defined a 0 Ha ltac:(lia)) as (cl & _ & _ & _ & Hcell & _).
    assert (Hmin : Guideline2021.minimum_support_half a = inr (low_krw cl / 2)
                   /\ 132000 <= low_krw cl / 2 <= 159500).
    { revert Hcell. unfold Guideline2021.minimum_support_half. unfold_cell.
      change (0 / 10000) with 0.
      split_leb; cbn; intros E; injection E as <-; cbn; split;
        first [reflexivity | lia]. }
    destruct Hmin as [Hmin Hbound].
    exists (low_krw cl / 2), cl. split; [exact Hmin|]. split; [exact Hcell|].
    split; [reflexivity|]. split; [exact Hbound|]. split.
    + intros c cl' Hcell'. destruct (cell_inv _ _ _ Hcell') as (_ & Hc & _).
      destruct (cell_monotone_income _ _ _ _ _ Hc Hcell Hcell') as [_ Hlow].
      pose proof (Z.mul_div_le (low_krw cl) 2 ltac:(lia)). lia.
    + intros a' h' Hle Hmin'.
      revert Hmin Hmin'. unfold Guideline2021.minimum_support_half,
        Guideline2021.age_label_for, AGE_BRACKETS.
      cbn [Guideline2021.age_label_loop].
      split_leb; cbn; intros E1 E2; try discriminate E2;
        injection E2 as <-; injection E1 as E1; rewrite <- E1; lia.
  - unfold Guideline2021.minimum_support_half, Guideline2021.age_label_for,
      AGE_BRACKETS.
    cbn [Guideline2021.age_label_loop].
    split.
    + intros Ha. split_leb; reflexivity.
    + split_leb; cbn; intros E; try discriminate E; lia.
Qed.

Lemma minimum_support_half_spec_witness :
  0 <= 10 <= 18 /\
  exists h cl,
    Guideline2021.minimum_support_half 10 = inr h /\
    Guideline2021.cell 10 0 = inr cl /\ h = low_krw cl / 2 /\ h = 140500.
Proof.
  split; [lia|].
  destruct (minimum_support_half_spec 10) as [Hdef _].
  destruct (Hdef ltac:(lia)) as (h & cl & Hmin & Hcell & Hh & _).
  exists h, cl. repeat split; try assumption.
  vm_compute in Hmin. now injection Hmin.
Defined.

(** ** Properties of the pipeline *)

(** X7. In every result the combined income is the sum of the two
    effective incomes and is not negative, there is one cell per child, in
    the order of the children, every cell has the one income bracket that
    the result reports and that contains the combined income, and the
    standard total is the sum of the averages of the cells, between
    621,000 and 2,883,000 per child. *)
Theorem result_consistent (inputs : CalculationInputs) (r : CalculationBreakdown) :
  calculate_child_support inputs = inr r ->
  combined_income_krw r = cust_income_of inputs + noncust_income_of inputs /\
  0 <= combined_income_krw r /\
  combined_income_mw r = combined_income_krw r / 10000 /\
  List.length (standard_children_cells r) = List.length (children inputs) /\
  cells_of (combined_income_krw r) (children inputs) (standard_children_cells r) /\
  Forall (fun cl =>
            nth_error INCOME_BRACKETS_MW (income_bracket_index r)
              = Some (income_bracket_mw cl) /\
            in_income_bracket (income_bracket_mw cl) (combined_income_mw r) /\
            low_krw cl <= avg_krw cl /\
            match high_krw cl with
            | Some h => avg_krw cl <= h
            | None => income_bracket_mw cl = (1200, None)
            end)
         (standard_children_cells r) /\
  standard_total_krw r = sum_avg (standard_children_cells r) /\
  621000 * Z.of_nat (List.length (children inputs)) <= standard_total_krw r
    <= 2883000 * Z.of_nat (List.length (children inputs)).
Proof.
  intros H. apply calculate_inv in H.
  destruct H as (_ & Hc & Hn & f & total & Hidx & Hstd & _ & _ & _ & _ & _ & _
                 & Hkrw & Hmw).
  rewrite Hkrw, Hmw. unfold combined_of at 1 2.
  split; [reflexivity|]. split; [lia|]. split; [reflexivity|].
  pose proof Hstd as Hspec. apply standard_support_spec in Hspec.
  destruct Hspec as (new & Hcells & Hnew & Htot). cbn [app] in Hnew.
  subst new.
  destruct (standard_support_bounds _ _ _ _ _ _ Hstd)
    as (new & Hnew & _ & Hlen & Hall).
  cbn [app] in Hnew. subst new.
  split; [exact Hlen|]. split; [exact Hcells|].
  split.
  - unfold cells_of in Hcells. clear - Hcells Hidx.
    induction Hcells as [|k cl kids cells Hcell Hrest IH]; constructor;
      [|exact IH].
    destruct (cell_inv _ _ _ Hcell)
      as (_ & H0 & _ & (idx & Hidx' & Hnth) & Hlow & Hhigh).
    rewrite Hidx in Hidx'. injection Hidx' as <-.
    split; [exact Hnth|]. split.
    + assert (Hmw0 : 0 <= combined_of inputs / 10000) by (apply Z.div_pos; lia).
      destruct (income_bracket_loop_spec _ Hmw0) as (i & b & Hloop & Hb & Hin & _).
      unfold Guideline2021.income_bracket_index in Hidx. rewrite Hloop in Hidx.
      injection Hidx as Hi. rewrite <- Hi in Hnth. rewrite Hb in Hnth.
      injection Hnth as <-. exact Hin.
    + split; [exact Hlow|]. destruct (high_krw cl); tauto.
  - split; [lia|]. rewrite <- Hlen, Htot, Z.add_0_l.
    apply sum_avg_bounds, Hall.
Qed.

Lemma result_consistent_witness :
  exists r,
    calculate_child_support scenario_B = inr r /\
    List.length (standard_children_cells r) = 2%nat /\
    standard_total_krw r = sum_avg (standard_children_cells r).
Proof.
  eexists. split; [vm_compute; reflexivity|].
  destruct (result_consistent scenario_B _ ltac:(vm_compute; reflexivity))
    as (_ & _ & _ & Hlen & _ & _ & Hsum & _).
  split; [exact Hlen | exact Hsum].
Defined.

(** X8. Between two successful calculations, when the combined income
    of the second is not lower and its children are, one by one, not
    younger, its standard total and its income bracket index are not
    lower. *)
Theorem standard_total_monotone
    (inputs1 inputs2 : CalculationInputs) (r1 r2 : CalculationBreakdown) :
  calculate_child_support inputs1 = inr r1 ->
  calculate_child_support inputs2 = inr r2 ->
  combined_income_krw r1 <= combined_income_krw r2 ->
  Forall2 (fun k1 k2 => age k1 <= age k2) (children inputs1) (children inputs2) ->
  standard_total_krw r1 <= standard_total_krw r2 /\
  (income_bracket_index r1 <= income_bracket_index r2)%nat.
Proof.
  intros H1 H2 Hc Hages.
  apply calculate_inv in H1, H2.
  destruct H1 as (_ & Hc1 & Hn1 & _ & _ & Hidx1 & Hstd1 & _ & _ & _ & _ & _ & _ & Hk1 & _).
  destruct H2 as (_ & Hc2 & Hn2 & _ & _ & Hidx2 & Hstd2 & _ & _ & _ & _ & _ & _ & Hk2 & _).
  rewrite Hk1, Hk2 in Hc.
  apply standard_support_spec in Hstd1, Hstd2.
  destruct Hstd1 as (n1 & Hcells1 & E1 & ->). destruct Hstd2 as (n2 & Hcells2 & E2 & ->).
  split.
  - pose proof (cells_of_monotone _ _ _ _ _ _ Hc Hages Hcells1 Hcells2). lia.
  - assert (H0 : 0 <= combined_of inputs1) by (unfold combined_of; lia).
    assert (Hm1 : 0 <= combined_of inputs1 / 10000) by (apply Z.div_pos; lia).
    assert (Hm2 : combined_of inputs1 / 10000 <= combined_of inputs2 / 10000)
      by (apply Z.div_le_mono; lia).
    revert Hidx1 Hidx2.
    unfold Guideline2021.income_bracket_index, INCOME_BRACKETS_MW.
    cbn [Guideline2021.income_bracket_loop]. rewrite !Z.geb_leb.
    generalize dependent (combined_of inputs2 / 10000).
    generalize dependent (combined_of inputs1 / 10000).
    intros mw1 Hm1 mw2 Hm2.
    split_leb; intros E1' E2'; injection E1' as <-; injection E2' as <-; lia.
Qed.

Lemma standard_total_monotone_witness :
  exists r1 r2,
    calculate_child_support scenario_A = inr r1 /\
    calculate_child_support scenario_older_richer = inr r2 /\
    combined_income_krw r1 <= combined_income_krw r2 /\
    standard_total_krw r1 <= standard_total_krw r2 /\
    (income_bracket_index r1 <= income_bracket_index r2)%nat.
Proof.
  do 2 eexists. split; [vm_compute; reflexivity|].
  split; [vm_compute; reflexivity|]. split; [vm_compute; discriminate|].
  apply (standard_total_monotone scenario_A scenario_older_richer).
  - vm_compute. reflexivity.
  - vm_compute. reflexivity.
  - vm_compute. discriminate.
  - repeat constructor. cbn. lia.
Defined.

(** X9. The order of the children does not matter: the request with its
    children permuted succeeds as well, with the cells permuted and every
    other field of the result unchanged. *)
Theorem children_order_irrelevant
    (inputs : CalculationInputs) (kids : list Child) (r : CalculationBreakdown) :
  Permutation (children inputs) kids ->
  calculate_child_support inputs = inr r ->
  exists cells,
    Permutation (standard_children_cells r) cells /\
    calculate_child_support (with_children inputs kids) =
      inr {| combined_income_krw := combined_income_krw r;
             combined_income_mw := combined_income_mw r;
             income_bracket_index := income_bracket_index r;
             standard_children_cells := cells;
             standard_total_krw := standard_total_krw r;
             child_count_multiplier := child_count_multiplier r;
             adjusted_total_krw := adjusted_total_krw r;
             non_custodial_share := non_custodial_share r;
             non_custodial_payment_krw := non_custodial_payment_krw r;
             applied_adjustments := applied_adjustments r |}.
Proof.
  intros Hperm H. apply calculate_inv in H.
  destruct H as (Hne & Hc & Hn & f & total & Hidx & Hstd & Hm & Hf & Hadj & Hs & Hp
                 & Hk & Hkrw & Hmw).
  apply standard_support_spec in Hstd.
  destruct Hstd as (new & Hcells & Hnew & Htot). cbn [app] in Hnew. subst new.
  destruct (cells_of_permutation _ _ _ _ Hperm Hcells) as (cells & Hcells2 & Hp2).
  exists cells. split; [exact Hp2|].
  rewrite Hkrw, Hmw.
  apply (calculate_intro (with_children inputs kids)) with (standard_total_f := f) (total := total);
    try assumption.
  - cbn. intros ->. apply Permutation_sym, Permutation_nil in Hperm. contradiction.
  - apply standard_support_spec. exists cells. split; [exact Hcells2|].
    split; [reflexivity|]. rewrite Htot. f_equal. apply sum_avg_permutation, Hp2.
  - cbn [children with_children]. rewrite <- (Permutation_length Hperm). exact Hm.
Qed.

Lemma children_order_irrelevant_witness :
  exists r cells,
    calculate_child_support scenario_B = inr r /\
    Permutation (standard_children_cells r) cells /\
    calculate_child_support (with_children scenario_B [ mkChild 15; mkChild 2 ]) =
      inr {| combined_income_krw := combined_income_krw r;
             combined_income_mw := combined_income_mw r;
             income_bracket_index := income_bracket_index r;
             standard_children_cells := cells;
             standard_total_krw := standard_total_krw r;
             child_count_multiplier := child_count_multiplier r;
             adjusted_total_krw := adjusted_total_krw r;
             non_custodial_share := non_custodial_share r;
             non_custodial_payment_krw := non_custodial_payment_krw r;
             applied_adjustments := applied_adjustments r |}.
Proof.
  eexists.
  assert (Hrun : calculate_child_support scenario_B = inr _)
    by (vm_compute; reflexivity).
  destruct (children_order_irrelevant scenario_B [ mkChild 15; mkChild 2 ] _
              (perm_swap _ _ _) Hrun) as (cells & Hperm & Hcalc).
  exists cells. split; [exact Hrun|]. split; [exact Hperm | exact Hcalc].
Defined.

(** X10. Every failure of the calculation has its cause in the request:
    the empty-children error means no child, the negative-income error a
    negative effective income, the out-of-range error carries the age of
    the first child outside 0 to 18, the invalid-adjustment error the type
    of an unrecognized adjustment; the other failures are those of the
    numeric conversions, and the "unreachable" bracket error, a missing
    key, a missing index or a division by zero never occur.  Conversely
    the checks fire in the order of the source: no child, then a negative
    income, then the first child out of range. *)
Theorem calculate_error_causes (inputs : CalculationInputs) :
  (forall e, calculate_child_support inputs = inl e -> error_cause inputs e) /\
  (children inputs = [] ->
   calculate_child_support inputs = inl EmptyChildrenError) /\
  (children inputs <> [] ->
   cust_income_of inputs < 0 \/ noncust_income_of inputs < 0 ->
   calculate_child_support inputs = inl NegativeIncomeError) /\
  (forall before k after,
      children inputs = before ++ k :: after ->
      Forall (fun k' => 0 <= age k' <= 18) before ->
      age k < 0 \/ 18 < age k ->
      0 <= cust_income_of inputs -> 0 <= noncust_income_of inputs ->
      calculate_child_support inputs = inl (OutOfRangeError (age k))).
Proof.
  split; [|split; [|split]].
  - intros e. apply calculate_error_cause.
  - intros Hnil. unfold calculate_child_support. rewrite Hnil. reflexivity.
  - intros Hne Hneg. unfold calculate_child_support.
    destruct (children inputs); [contradiction|].
    replace ((cust_income_of inputs <? 0) || (noncust_income_of inputs <? 0))
      with true; [reflexivity|].
    symmetry. apply orb_true_iff. rewrite !Z.ltb_lt. exact Hneg.
  - intros bf k af Hsplit Hbf Hout Hc Hn.
    assert (H0 : 0 <= combined_of inputs) by (unfold combined_of; lia).
    assert (Hmw : 0 <= combined_of inputs / 10000) by (apply Z.div_pos; lia).
    destruct (income_bracket_loop_spec _ Hmw) as (idx & b & Hloop & _).
    assert (Hstd : standard_support (children inputs) (combined_of inputs) [] 0
                   = inl (OutOfRangeError (age k)))
      by (rewrite Hsplit; now apply standard_support_first_error).
    unfold calculate_child_support.
    assert (Hmatch : forall (A : Type) (x y : A),
               match children inputs with [] => x | _ :: _ => y end = y)
      by (rewrite Hsplit; destruct bf; reflexivity).
    rewrite Hmatch. apply Z.ltb_ge in Hc, Hn. rewrite Hc, Hn. cbn [orb].
    unfold Guideline2021.income_bracket_index. rewrite Hloop. cbn [bind].
    rewrite Hstd. reflexivity.
Qed.

Lemma calculate_error_causes_witness :
  children scenario_out_of_range
    = [ mkChild 8 ] ++ mkChild 19 :: [ mkChild (-1) ] /\
  calculate_child_support scenario_out_of_range = inl (OutOfRangeError 19).
Proof.
  split; [reflexivity|].
  destruct (calculate_error_causes scenario_out_of_range) as (_ & _ & _ & Hfirst).
  apply (Hfirst [ mkChild 8 ] (mkChild 19) [ mkChild (-1) ]).
  - reflexivity.
  - repeat constructor; cbn; lia.
  - cbn. lia.
  - vm_compute. discriminate.
  - vm_compute. discriminate.
Defined.

(** X11. Imputation is a substitution: the outcome of a request is the
    outcome of the request that states the effective incomes and imputes
    nothing, where the effective income is the stated one when it is
    positive or nothing is imputed, and the imputed one otherwise.  So a
    stated income of zero or below, even a negative one, is accepted when
    a non-negative value is imputed for it. *)
Theorem imputation_is_substitution (inputs : CalculationInputs) :
  calculate_child_support inputs
    = calculate_child_support (with_effective_incomes inputs) /\
  (cust_income_of inputs =
     match custodial_imputed_income_krw inputs with
     | Some v => if 0 <? custodial_parent_income_krw inputs
                 then custodial_parent_income_krw inputs else v
     | None => custodial_parent_income_krw inputs
     end) /\
  (noncust_income_of inputs =
     match non_custodial_imputed_income_krw inputs with
     | Some v => if 0 <? non_custodial_parent_income_krw inputs
                 then non_custodial_parent_income_krw inputs else v
     | None => non_custodial_parent_income_krw inputs
     end) /\
  (forall v w,
      custodial_imputed_income_krw inputs = Some v ->
      non_custodial_imputed_income_krw inputs = Some w ->
      custodial_parent_income_krw inputs <= 0 ->
      non_custodial_parent_income_krw inputs <= 0 ->
      0 <= v -> 0 <= w ->
      calculate_child_support inputs <> inl NegativeIncomeError).
Proof.
  split; [reflexivity|].
  assert (Himp : forall s i, impute s i =
                   match i with
                   | Some v => if 0 <? s then s else v
                   | None => s
                   end).
  { intros s [v|]; cbn; [|reflexivity].
    destruct (Z.leb_spec s 0), (Z.ltb_spec 0 s); try reflexivity; lia. }
  split; [apply Himp|]. split; [apply Himp|].
  intros v w Hv Hw Hs1 Hs2 H0v H0w H.
  apply calculate_error_cause in H. cbn in H. destruct H as [_ Hneg].
  unfold cust_income_of, noncust_income_of in Hneg. rewrite Hv, Hw in Hneg.
  cbn in Hneg.
  apply Z.leb_le in Hs1, Hs2. rewrite Hs1, Hs2 in Hneg. lia.
Qed.

Lemma imputation_is_substitution_witness :
  custodial_parent_income_krw scenario_imputed <= 0 /\
  non_custodial_parent_income_krw scenario_imputed <= 0 /\
  calculate_child_support scenario_imputed <> inl NegativeIncomeError /\
  calculate_child_support scenario_imputed
    = calculate_child_support (with_effective_incomes scenario_imputed) /\
  with_effective_incomes scenario_imputed = scenario_A.
Proof.
  destruct (imputation_is_substitution scenario_imputed)
    as (Hsame & _ & _ & Haccept).
  split; [cbn; lia|]. split; [cbn; lia|].
  split; [|split; [exact Hsame | reflexivity]].
  apply (Haccept 2000000 3000000); try reflexivity; cbn; lia.
Defined.

(** X12. The payment of a successful calculation is never negative; and
    when the total that comes out of the adjustment fold is not above
    zero (it is then clamped), the adjusted total and the payment are
    both 0. *)
Theorem payment_never_negative
    (inputs : CalculationInputs) (r : CalculationBreakdown) :
  calculate_child_support inputs = inr r ->
  0 <= non_custodial_payment_krw r /\
  (forall seed total applied,
      seed_total inputs = inr seed ->
      apply_adjustments (adj_of inputs) seed [] = inr (total, applied) ->
      (0 <? total)%float = false ->
      adjusted_total_krw r = 0 /\ non_custodial_payment_krw r = 0).
Proof.
  intros H.
  destruct (calculate_unrounded _ _ H) as (t & Ht & Hsign & Hp & Hk).
  apply calculate_inv in H.
  destruct H as (_ & Hc & Hn & _ & _ & _ & _ & _ & _ & _ & Hs & _).
  split.
  - unfold _safe_int in Hp. eapply floor_int_nonneg; [|exact Hp].
    apply add_half_sign, mul_sign; [exact Hsign|].
    eapply share_of_sign; [exact Hn| |exact Hs]. unfold combined_of. lia.
  - intros seed total applied Hseed Hadj Hneg.
    unfold unrounded_adjusted_total in Ht. rewrite Hseed in Ht.
    cbn [bind] in Ht. rewrite Hadj in Ht. cbn in Ht. injection Ht as <-.
    unfold max_zero in Hp, Hk. rewrite Hneg in Hp, Hk.
    rewrite safe_int_zero in Hk. injection Hk as <-.
    split; [reflexivity|]. eapply zero_mul_safe_int, Hp.
Qed.

Lemma payment_never_negative_witness :
  exists r,
    calculate_child_support scenario_oversubtract = inr r /\
    0 <= non_custodial_payment_krw r /\
    adjusted_total_krw r = 0 /\ non_custodial_payment_krw r = 0.
Proof.
  eexists.
  assert (Hrun : calculate_child_support scenario_oversubtract = inr _)
    by (vm_compute; reflexivity).
  destruct (payment_never_negative scenario_oversubtract _ Hrun) as [Hpos Hzero].
  split; [exact Hrun|]. split; [exact Hpos|].
  eapply Hzero; vm_compute; reflexivity.
Defined.

(** X13. The two extremes of the share: when the non-custodial parent has
    no effective income the share is 0.0 and the payment 0; when only the
    non-custodial parent has income the share is exactly 1.0, whatever the
    size of the income, and the payment is the reported adjusted total. *)
Theorem share_extremes (inputs : CalculationInputs) (r : CalculationBreakdown) :
  calculate_child_support inputs = inr r ->
  (noncust_income_of inputs = 0 ->
   non_custodial_share r = 0%float /\ non_custodial_payment_krw r = 0) /\
  (cust_income_of inputs = 0 -> 0 < noncust_income_of inputs ->
   non_custodial_share r = 1%float /\
   non_custodial_payment_krw r = adjusted_total_krw r).
Proof.
  intros H.
  destruct (calculate_unrounded _ _ H) as (t & Ht & Hsign & Hp & Hk).
  destruct (unrounded_inv _ _ Ht) as (_ & _ & _ & _ & total & _ & _ & _ & _ & _ & ->).
  apply calculate_inv in H.
  destruct H as (_ & Hc & Hn & _ & _ & _ & _ & _ & _ & _ & Hs & _).
  split.
  - intros Hz. rewrite Hz in Hs. unfold share_of in Hs.
    assert (Hshare : non_custodial_share r = 0%float).
    { destruct (combined_of inputs =? 0) eqn:E; [now injection Hs|].
      apply Z.eqb_neq in E.
      rewrite int_true_div_zero in Hs by (unfold combined_of in *; lia).
      now injection Hs. }
    split; [exact Hshare|]. rewrite Hshare in Hp.
    rewrite (clamped_mul_zero _ _ Hk), safe_int_zero in Hp. now injection Hp.
  - intros Hz Hpos. unfold share_of, combined_of in Hs. rewrite Hz in Hs.
    cbn [Z.add] in Hs.
    replace (noncust_income_of inputs =? 0) with false in Hs
      by (symmetry; apply Z.eqb_neq; lia).
    rewrite int_true_div_self in Hs by exact Hpos. injection Hs as Hs.
    split; [now symmetry|]. rewrite <- Hs, mul_one_r in Hp. congruence.
Qed.

Lemma share_extremes_witness :
  exists r,
    calculate_child_support scenario_sole_earner = inr r /\
    cust_income_of scenario_sole_earner = 0 /\
    0 < noncust_income_of scenario_sole_earner /\
    non_custodial_share r = 1%float /\
    non_custodial_payment_krw r = adjusted_total_krw r.
Proof.
  eexists.
  assert (Hrun : calculate_child_support scenario_sole_earner = inr _)
    by (vm_compute; reflexivity).
  destruct (share_extremes scenario_sole_earner _ Hrun) as [_ Hone].
  split; [exact Hrun|]. split; [reflexivity|]. split; [reflexivity|].
  apply Hone; reflexivity.
Defined.

(** X14. With exactly two children and no adjustment the multiplier is
    the baseline 1.0 and the adjusted total of the result is the standard
    total itself: neither the conversion to a double, nor the
    multiplication, nor the half-up rounding changes it. *)
Theorem two_children_baseline
    (inputs : CalculationInputs) (r : CalculationBreakdown) :
  calculate_child_support inputs = inr r ->
  List.length (children inputs) = 2%nat -> adj_of inputs = [] ->
  child_count_multiplier r = 1%float /\
  adjusted_total_krw r = standard_total_krw r /\
  applied_adjustments r = [].
Proof.
  intros H Hlen Hadj0. apply calculate_inv in H.
  destruct H as (_ & _ & _ & f & total & _ & Hstd & Hm & Hf & Hadj & _ & _ & Hk & _).
  rewrite Hlen in Hm. cbn in Hm. injection Hm as Hm.
  rewrite Hadj0 in Hadj. cbn in Hadj. injection Hadj as Htot Happ.
  destruct (standard_support_bounds _ _ _ _ _ _ Hstd)
    as (new & Hnew & Hsum & Hl & Hall).
  cbn [app] in Hnew. subst new. rewrite Z.add_0_l in Hsum.
  pose proof (sum_avg_bounds _ Hall) as Hb. rewrite Hl, Hlen, <- Hsum in Hb.
  destruct (float_of_int_exact (standard_total_krw r)) as (f' & Hf' & Hint).
  { change (2 ^ 52) with 4503599627370496. lia. }
  rewrite Hf in Hf'. injection Hf' as <-.
  split; [now symmetry|]. split; [|now symmetry].
  rewrite <- Hm, mul_one_r in Htot. subst total.
  rewrite (max_zero_integer _ _ Hint), (safe_int_integer _ _ Hint) in Hk.
  now injection Hk.
Qed.

Lemma two_children_baseline_witness :
  exists r,
    calculate_child_support scenario_B = inr r /\
    List.length (children scenario_B) = 2%nat /\ adj_of scenario_B = [] /\
    child_count_multiplier r = 1%float /\
    adjusted_total_krw r = standard_total_krw r /\
    applied_adjustments r = [].
Proof.
  eexists. split; [vm_compute; reflexivity|]. split; [reflexivity|].
  split; [reflexivity|].
  apply (two_children_baseline scenario_B); [vm_compute|..]; reflexivity.
Defined.

(** X15. The audit list of a result holds, for every adjustment of the
    request and in order, its fields and its effect (the factor, 1 + the
    rate, or the amount added or subtracted); replaying the recorded
    effects on the seed total and clamping gives the unrounded adjusted
    total, whose rounding is the adjusted total of the result. *)
Theorem audit_trail_replays (inputs : CalculationInputs) (r : CalculationBreakdown) :
  calculate_child_support inputs = inr r ->
  applied_adjustments r = map (fun a => mkApplied a (effect_of a)) (adj_of inputs) /\
  exists seed,
    seed_total inputs = inr seed /\
    unrounded_adjusted_total inputs
      = inr (max_zero (fold_left replay_effect
                         (map applied_effect (applied_adjustments r)) seed)) /\
    _safe_int (max_zero (fold_left replay_effect
                           (map applied_effect (applied_adjustments r)) seed))
      = inr (adjusted_total_krw r).
Proof.
  intros H. apply calculate_inv in H.
  destruct H as (_ & _ & _ & f & total & _ & Hstd & Hm & Hf & Hadj & _ & _ & Hk & _).
  destruct (apply_adjustments_inv _ _ _ _ _ Hadj) as (_ & Happ & Htot).
  cbn [app] in Happ. split; [exact Happ|].
  assert (Hseed : seed_total inputs = inr (f * child_count_multiplier r)%float).
  { unfold seed_total. rewrite Hstd. cbn [bind]. rewrite Hm. cbn [bind].
    rewrite Hf. reflexivity. }
  exists (f * child_count_multiplier r)%float. split; [exact Hseed|].
  assert (Hmap : map applied_effect (applied_adjustments r)
                 = map effect_of (adj_of inputs)).
  { rewrite Happ, map_map. reflexivity. }
  rewrite Hmap, <- Htot. split; [|exact Hk].
  unfold unrounded_adjusted_total. rewrite Hseed. cbn [bind]. rewrite Hadj.
  reflexivity.
Qed.

Lemma audit_trail_replays_witness :
  exists r seed,
    calculate_child_support scenario_fraction = inr r /\
    seed_total scenario_fraction = inr seed /\
    _safe_int (max_zero (fold_left replay_effect
                           (map applied_effect (applied_adjustments r)) seed))
      = inr (adjusted_total_krw r).
Proof.
  eexists.
  assert (Hrun : calculate_child_support scenario_fraction = inr _)
    by (vm_compute; reflexivity).
  destruct (audit_trail_replays scenario_fraction _ Hrun)
    as (_ & seed & Hseed & _ & Hround).
  exists seed. split; [exact Hrun|]. split; [exact Hseed | exact Hround].
Defined.

(** X16. An adjustment that multiplies by 1.0 (a factor of 1.0 or a
    percentage of 0.0) changes no amount wherever it stands in the list:
    the request with it succeeds when the request without it does, with
    the same result but for the audit list, which gains the record. *)
Theorem neutral_adjustment_changes_nothing
    (inputs : CalculationInputs) (a : Adjustment) (l1 l2 : list Adjustment)
    (r : CalculationBreakdown) :
  neutral a ->
  calculate_child_support (with_adjustments inputs (l1 ++ l2)) = inr r ->
  exists applied,
    calculate_child_support (with_adjustments inputs (l1 ++ a :: l2)) =
      inr {| combined_income_krw := combined_income_krw r;
             combined_income_mw := combined_income_mw r;
             income_bracket_index := income_bracket_index r;
             standard_children_cells := standard_children_cells r;
             standard_total_krw := standard_total_krw r;
             child_count_multiplier := child_count_multiplier r;
             adjusted_total_krw := adjusted_total_krw r;
             non_custodial_share := non_custodial_share r;
             non_custodial_payment_krw := non_custodial_payment_krw r;
             applied_adjustments := applied |} /\
    map applied_fields applied = l1 ++ a :: l2.
Proof.
  intros Hneutral H. destruct (neutral_effect a Hneutral) as [Hrec Heff].
  apply calculate_inv in H.
  destruct H as (Hne & Hc & Hn & f & total & Hidx & Hstd & Hm & Hf & Hadj & Hs & Hp
                 & Hk & Hkrw & Hmw).
  cbn [adj_of adjustments with_adjustments] in Hadj.
  destruct (apply_adjustments_inv _ _ _ _ _ Hadj) as (Hall & _ & Htot).
  rewrite forallb_app in Hall. apply andb_true_iff in Hall. destruct Hall as [H1 H2].
  assert (Hall' : forallb recognized (l1 ++ a :: l2) = true)
    by (rewrite forallb_app; cbn; rewrite H1, Hrec, H2; reflexivity).
  pose proof (apply_adjustments_intro _ Hall'
                (f * child_count_multiplier r)%float []) as Hadj'.
  assert (Htot' : fold_left replay_effect (map effect_of (l1 ++ a :: l2))
                    (f * child_count_multiplier r)%float = total).
  { rewrite Htot, !map_app, !fold_left_app. cbn [map fold_left].
    rewrite Heff. cbn [replay_effect]. rewrite mul_one_r. reflexivity. }
  rewrite Htot' in Hadj'. cbn [app] in Hadj'.
  eexists. split.
  - rewrite Hkrw, Hmw.
    eapply (calculate_intro (with_adjustments inputs (l1 ++ a :: l2)));
      try eassumption.
  - rewrite map_map. cbn. apply map_id.
Qed.

Lemma neutral_adjustment_changes_nothing_witness :
  neutral unit_factor /\
  exists r applied,
    calculate_child_support
      (with_adjustments scenario_A ([] ++ [ mkAdjustment "m" "add" 50000 false "" ]))
      = inr r /\
    calculate_child_support
      (with_adjustments scenario_A
         ([] ++ unit_factor :: [ mkAdjustment "m" "add" 50000 false "" ])) =
      inr {| combined_income_krw := combined_income_krw r;
             combined_income_mw := combined_income_mw r;
             income_bracket_index := income_bracket_index r;
             standard_children_cells := standard_children_cells r;
             standard_total_krw := standard_total_krw r;
             child_count_multiplier := child_count_multiplier r;
             adjusted_total_krw := adjusted_total_krw r;
             non_custodial_share := non_custodial_share r;
             non_custodial_payment_krw := non_custodial_payment_krw r;
             applied_adjustments := applied |}.
Proof.
  assert (Hneutral : neutral unit_factor)
    by (split; [reflexivity | left; split; reflexivity]).
  split; [exact Hneutral|].
  eexists.
  assert (Hrun : calculate_child_support
                   (with_adjustments scenario_A
                      ([] ++ [ mkAdjustment "m" "add" 50000 false "" ])) = inr _)
    by (vm_compute; reflexivity).
  destruct (neutral_adjustment_changes_nothing scenario_A unit_factor []
              [ mkAdjustment "m" "add" 50000 false "" ] _ Hneutral Hrun)
    as (applied & Hcalc & _).
  exists applied. split; [exact Hrun | exact Hcalc].
Defined.

(** ** The command line *)

Lemma split_comma_nonempty (s : string) : split_comma s <> [].
Proof.
  destruct s as [|c rest]; cbn; [discriminate|].
  destruct (c =? ",")%char; [discriminate|].
  destruct (split_comma rest); discriminate.
Qed.

(** Joining the parts with commas gives the string back. *)
Lemma split_comma_join (s : string) :
  String.concat "," (split_comma s) = s.
Proof.
  induction s as [|c rest IH]; [reflexivity|].
  pose proof (split_comma_nonempty rest) as Hne.
  cbn [split_comma]. destruct (c =? ",")%char eqn:Hc.
  - apply Ascii.eqb_eq in Hc. subst c.
    destruct (split_comma rest) as [|part parts]; [contradiction|].
    cbn [concat]. cbn [concat] in IH. rewrite IH. reflexivity.
  - destruct (split_comma rest) as [|part parts]; [contradiction|].
    destruct parts as [|p2 parts]; cbn [concat] in *.
    + now rewrite IH.
    + cbn. now rewrite <- IH.
Qed.

Section CommandLineFacts.

Variable str_strip : string -> string.
Variable int_of_str : string -> option Z.

Lemma parse_ages_loop_spec (parts : list string) :
  forall ages,
    match parse_ages_loop str_strip int_of_str parts ages with
    | inr kids =>
        exists new,
          kids = ages ++ new /\
          map (fun k => Some (age k)) new
            = map int_of_str
                (filter (fun part => negb (part =? "")%string)
                        (map str_strip parts))
    | inl e =>
        exists before part after,
          filter (fun part => negb (part =? "")%string) (map str_strip parts)
            = before ++ part :: after /\
          Forall (fun p => int_of_str p <> None) before /\
          int_of_str part = None /\ e = InvalidLiteralError part
    end.
Proof.
  induction parts as [|p parts IH]; intros ages; cbn [parse_ages_loop map filter].
  - exists []. rewrite app_nil_r. auto.
  - destruct (str_strip p =? "")%string eqn:Hblank; cbn [negb]; [apply IH|].
    destruct (int_of_str (str_strip p)) as [n|] eqn:Hint.
    + specialize (IH (ages ++ [mkChild n])).
      destruct (parse_ages_loop str_strip int_of_str parts (ages ++ [mkChild n])) as [e|kids].
      * destruct IH as (bf & part & af & Hsplit & Hbf & Hnone & ->).
        exists (str_strip p :: bf), part, af. rewrite Hsplit.
        split; [reflexivity|]. split; [|auto].
        constructor; [congruence | exact Hbf].
      * destruct IH as (new & -> & Hmap). exists (mkChild n :: new).
        rewrite <- app_assoc. split; [reflexivity|].
        cbn [map age]. rewrite Hmap, Hint. reflexivity.
    + do 3 eexists. split; [rewrite app_nil_l; reflexivity|]. auto.
Qed.

Lemma parse_children_ages_result (s : string) :
  match _parse_children_ages str_strip int_of_str s with
  | inr kids =>
      kids <> [] /\
      map (fun k => Some (age k)) kids = map int_of_str (nonblank_parts str_strip s)
  | inl (CoreError _) => False
  | inl _ => True
  end.
Proof.
  unfold _parse_children_ages, nonblank_parts.
  pose proof (parse_ages_loop_spec (split_comma s) []) as H.
  destruct (parse_ages_loop str_strip int_of_str (split_comma s) []) as [e|kids].
  - destruct H as (bf & part & af & _ & _ & _ & ->). exact I.
  - destruct H as (new & Hkids & Hmap). cbn [app] in Hkids. subst new.
    destruct kids as [|k kids]; [exact I|].
    split; [discriminate | exact Hmap].
Qed.

(** X17. The ages parser returns a list that is never empty: the ages
    are the integers of the parts between commas that are not blank once
    stripped, in order; it fails with the format error exactly when every
    part is blank, and with the error of the first part that is not an
    integer otherwise. *)
Theorem parse_children_ages_spec (s : string) :
  match _parse_children_ages str_strip int_of_str s with
  | inr kids =>
      kids <> [] /\
      map (fun k => Some (age k)) kids = map int_of_str (nonblank_parts str_strip s)
  | inl ChildrenAgesFormatError => nonblank_parts str_strip s = []
  | inl (InvalidLiteralError part) =>
      exists before after,
        nonblank_parts str_strip s = before ++ part :: after /\
        Forall (fun p => int_of_str p <> None) before /\
        int_of_str part = None
  | inl (CoreError _) => False
  end.
Proof.
  unfold _parse_children_ages, nonblank_parts.
  pose proof (parse_ages_loop_spec (split_comma s) []) as H.
  destruct (parse_ages_loop str_strip int_of_str (split_comma s) []) as [e|kids].
  - destruct H as (bf & part & af & Hsplit & Hbf & Hnone & ->).
    exists bf, af. auto.
  - destruct H as (new & Hkids & Hmap). cbn [app] in Hkids. subst new.
    destruct kids as [|k kids].
    + cbn in Hmap. symmetry in Hmap. apply map_eq_nil in Hmap. exact Hmap.
    + split; [discriminate | exact Hmap].
Qed.

(** X18. Called from the command line the calculation never fails for lack
    of a child; nothing is imputed there, so a negative stated income is
    always rejected once the ages are parsed, and a result reports the sum
    of the two stated incomes and one cell per age that was given. *)
Theorem main_calculation_outcomes (cust_income noncust_income : Z)
    (children_ages : string) (adjustments : option (list Adjustment)) :
  main_calculation str_strip int_of_str cust_income noncust_income children_ages adjustments
    <> inl (CoreError EmptyChildrenError) /\
  (forall kids,
      _parse_children_ages str_strip int_of_str children_ages = inr kids ->
      cust_income < 0 \/ noncust_income < 0 ->
      main_calculation str_strip int_of_str cust_income noncust_income children_ages adjustments
        = inl (CoreError NegativeIncomeError)) /\
  (forall out,
      main_calculation str_strip int_of_str cust_income noncust_income children_ages adjustments
        = inr out ->
      0 <= cust_income /\ 0 <= noncust_income /\
      combined_income_krw out = cust_income + noncust_income /\
      List.length (standard_children_cells out)
        = List.length (nonblank_parts str_strip children_ages) /\
      List.length (standard_children_cells out) <> 0%nat).
Proof.
  unfold main_calculation.
  pose proof (parse_children_ages_result children_ages) as Hparse.
  destruct (_parse_children_ages str_strip int_of_str children_ages) as [e|kids] eqn:Hp.
  - split; [|split]; [|discriminate|discriminate].
    intros H. injection H as ->. exact Hparse.
  - destruct Hparse as [Hne Hmap].
    set (inputs := {| custodial_parent_income_krw := cust_income;
                      non_custodial_parent_income_krw := noncust_income;
                      children := kids;
                      custodial_imputed_income_krw := None;
                      non_custodial_imputed_income_krw := None;
                      adjustments := adjustments |}).
    split; [|split].
    + intros H.
      destruct (calculate_child_support inputs) as [e|out] eqn:Hcalc;
        [|discriminate H].
      injection H as ->. apply calculate_error_cause in Hcalc.
      cbn in Hcalc. contradiction.
    + intros kids' Hk Hneg. injection Hk as <-.
      unfold calculate_child_support. cbn [children inputs].
      destruct kids as [|k kids]; [contradiction|].
      change (cust_income_of inputs) with cust_income.
      change (noncust_income_of inputs) with noncust_income.
      replace ((cust_income <? 0) || (noncust_income <? 0)) with true;
        [reflexivity|].
      symmetry. apply orb_true_iff. rewrite !Z.ltb_lt. exact Hneg.
    + intros out H.
      destruct (calculate_child_support inputs) as [e|out'] eqn:Hcalc;
        [discriminate H|].
      injection H as ->. apply calculate_inv in Hcalc.
      destruct Hcalc as (_ & Hc & Hn & _ & _ & _ & Hstd & _ & _ & _ & _ & _ & _
                         & Hkrw & _).
      destruct (standard_support_bounds _ _ _ _ _ _ Hstd)
        as (new & Hnew & _ & Hlen & _).
      cbn [app] in Hnew. subst new. cbn [children inputs] in Hlen.
      split; [exact Hc|]. split; [exact Hn|]. split; [exact Hkrw|].
      assert (Hcount : List.length kids = List.length (nonblank_parts str_strip children_ages)).
      { rewrite <- (length_map (fun k => Some (age k)) kids), Hmap.
        apply length_map. }
      split; [congruence|]. rewrite Hlen.
      destruct kids; [contradiction | discriminate].
Qed.

End CommandLineFacts.

Lemma parse_children_ages_examples :
  _parse_children_ages strip_spaces decimal_literal "8" = inr [ mkChild 8 ] /\
  _parse_children_ages strip_spaces decimal_literal " 8, ,15,"
    = inr [ mkChild 8; mkChild 15 ] /\
  _parse_children_ages strip_spaces decimal_literal "" = inl ChildrenAgesFormatError /\
  _parse_children_ages strip_spaces decimal_literal " , ,"
    = inl ChildrenAgesFormatError /\
  _parse_children_ages strip_spaces decimal_literal "8,x,15"
    = inl (InvalidLiteralError "x").
Proof. repeat split; reflexivity. Qed.

Lemma main_calculation_outcomes_witness :
  exists kids,
    _parse_children_ages strip_spaces decimal_literal "8,15" = inr kids /\
    (2000000 < 0 \/ -1 < 0) /\
    main_calculation strip_spaces decimal_literal 2000000 (-1) "8,15" None
      = inl (CoreError NegativeIncomeError).
Proof.
  eexists. split; [reflexivity|]. split; [lia|].
  destruct (main_calculation_outcomes strip_spaces decimal_literal
              2000000 (-1) "8,15" None) as (_ & Hneg & _).
  eapply Hneg; [reflexivity | lia].
Defined.
